(** * A shallow embedding of the session / chat / cleanup core of ai-chat

    Sources: [src/app/src/lib/api/app.ts] (Hono routes [/session],
    [/session/:sessionId], [/chat], [/conversations], [/cleanup]), [src/app/src/lib/session/index.ts] (session store), and
    [src/app/src/lib/mastra/agent.ts] ([generateResponse] and the
    transactional revision of [cleanupExpiredSessions]).

    Each route runs on its own against one state: requests are not
    interleaved, and a Prisma call always answers (database failures, which
    would reach the routes' [catch] blocks, are not modelled). *)

From Stdlib Require Import String Ascii List Bool ZArith Lia Permutation.
Import ListNotations.
Open Scope Z_scope.
#[local] Set Warnings "-register-all".

(** ** JavaScript strings

    A JS string is a sequence of UTF-16 code units; [length] counts code
    units. *)
Definition jsstr := list Z.

(** ASCII literal to JS string. *)
Fixpoint js (s : string) : jsstr :=
  match s with
  | EmptyString => []
  | String c r => Z.of_nat (nat_of_ascii c) :: js r
  end.

Fixpoint jsstr_eqb (a b : jsstr) : bool :=
  match a, b with
  | [], [] => true
  | x :: a', y :: b' => (x =? y) && jsstr_eqb a' b'
  | _, _ => false
  end.

(** WhiteSpace and LineTerminator code points of ECMA-262, the set removed
    by [String.prototype.trim]. *)
Definition is_js_ws (u : Z) : bool :=
  existsb (Z.eqb u)
    [9; 10; 11; 12; 13; 32; 160; 5760; 8192; 8193; 8194; 8195; 8196; 8197;
     8198; 8199; 8200; 8201; 8202; 8232; 8233; 8239; 8287; 12288; 65279].

Fixpoint drop_ws (s : jsstr) : jsstr :=
  match s with
  | [] => []
  | u :: r => if is_js_ws u then drop_ws r else s
  end.

(** [String.prototype.trim] *)
Definition trim (s : jsstr) : jsstr := rev (drop_ws (rev (drop_ws s))).

Fixpoint starts_with (s prefix : jsstr) : bool :=
  match prefix, s with
  | [], _ => true
  | p :: prefix', u :: s' => (u =? p) && starts_with s' prefix'
  | _ :: _, [] => false
  end.

(** [s.substring(n)] for [n] at most the length *)
Definition substring_from (s : jsstr) (n : nat) : jsstr := skipn n s.

(** ** Regular expressions of app.ts *)

Definition is_hex (u : Z) : bool :=
  ((48 <=? u) && (u <=? 57)) || ((65 <=? u) && (u <=? 70))
  || ((97 <=? u) && (u <=? 102)).

(** [/^[0-9a-f]{8}-[0-9a-f]{4}-[0-9a-f]{4}-[0-9a-f]{4}-[0-9a-f]{12}$/i] *)
Fixpoint uuid_from (i : nat) (s : jsstr) : bool :=
  match s with
  | [] => Nat.eqb i 36
  | u :: r =>
      (if existsb (Nat.eqb i) [8; 13; 18; 23]%nat then u =? 45 else is_hex u)
      && uuid_from (S i) r
  end.

Definition isValidUUID (s : jsstr) : bool := uuid_from 0 s.

(** [/^[0-9a-f]{24}$/i] *)
Definition isValidObjectId (s : jsstr) : bool :=
  Nat.eqb (length s) 24 && forallb is_hex s.

(** ** Parsed JSON values

    [c.req.json()] yields any JSON value; JSON has no [undefined], which
    appears here only as the result of reading an absent property. *)
Inductive jval :=
| JUndefined
| JNull
| JBool (b : bool)
| JNum (n : Z)
| JStr (s : jsstr)
| JArr (xs : list jval)
| JObj (fields : list (jsstr * jval)).

(** Property read [v.key]. [JSON.parse] keeps the last of duplicate keys.
    Reading a property of [null] throws a TypeError: [None]. *)
Fixpoint obj_get (fs : list (jsstr * jval)) (k : jsstr) : jval :=
  match fs with
  | [] => JUndefined
  | (k', v) :: r =>
      match obj_get r k with
      | JUndefined => if jsstr_eqb k k' then v else JUndefined
      | w => w
      end
  end.

Definition get_prop (v : jval) (k : jsstr) : option jval :=
  match v with
  | JNull | JUndefined => None
  | JObj fs => Some (obj_get fs k)
  | _ => Some JUndefined
  end.

(** JS truthiness (JSON numbers are never NaN) *)
Definition truthy (v : jval) : bool :=
  match v with
  | JUndefined | JNull => false
  | JBool b => b
  | JNum n => negb (n =? 0)
  | JStr s => negb (Nat.eqb (length s) 0)
  | JArr _ | JObj _ => true
  end.

(** ** Error codes of errors.ts *)
Inductive error_code :=
| INVALID_REQUEST_BODY | MISSING_MESSAGE | EMPTY_MESSAGE | MESSAGE_TOO_LONG
| MISSING_SESSION_ID | INVALID_SESSION_ID_FORMAT | INVALID_CONVERSATION_ID_FORMAT
| SESSION_INVALID | AUTH_REQUIRED | AUTH_FAILED
| SESSION_NOT_FOUND | CONVERSATION_NOT_FOUND
| INTERNAL_ERROR | SESSION_CREATE_FAILED | SESSION_VALIDATE_FAILED | CHAT_ERROR
| CLEANUP_ERROR | CLEANUP_NOT_CONFIGURED | SERVICE_UNHEALTHY.

Definition MAX_MESSAGE_LENGTH : nat := 400.

(** The validation chain of [app.post('/chat')] after the body has been
    destructured.  On success it returns the checked [message], [sessionId]
    and [conversationId]; the latter is [None] when it was [undefined] or
    [null], and otherwise a 24-hex-digit string, which is truthy, so the
    later [if (conversationId)] takes its first branch exactly on [Some]. *)
Definition validate_chat_fields (message sessionId conversationId : jval)
  : error_code + (jsstr * jsstr * option jsstr) :=
  match message with
  | JStr m =>
      if negb (truthy message) then inl MISSING_MESSAGE else
      let trimmedMessage := trim m in
      if Nat.eqb (length trimmedMessage) 0 then inl EMPTY_MESSAGE else
      if Nat.ltb MAX_MESSAGE_LENGTH (length trimmedMessage)
      then inl MESSAGE_TOO_LONG else
      match sessionId with
      | JStr sid =>
          if negb (truthy sessionId) then inl MISSING_SESSION_ID else
          if negb (isValidUUID sid) then inl INVALID_SESSION_ID_FORMAT else
          match conversationId with
          | JUndefined | JNull => inr (m, sid, None)
          | JStr cid =>
              if negb (isValidObjectId cid)
              then inl INVALID_CONVERSATION_ID_FORMAT else inr (m, sid, Some cid)
          | _ => inl INVALID_CONVERSATION_ID_FORMAT
          end
      | _ => inl MISSING_SESSION_ID
      end
  | _ => inl MISSING_MESSAGE
  end.

(** ** Persisted records (Prisma models Session, Conversation, Message) *)

Record session := mkSession {
  s_id : jsstr;            (* ObjectId, system generated *)
  s_sessionId : jsstr;     (* the client-visible token *)
  s_expiresAt : Z;         (* milliseconds since the epoch *)
}.

Record conversation := mkConversation {
  c_id : jsstr;
  c_sessionId : jsstr;     (* owner: [s_id] of a session *)
  c_createdAt : Z;
}.

Inductive role := User | Assistant.

Record message := mkMessage {
  m_id : jsstr;
  m_conversationId : jsstr; (* owner: [c_id] of a conversation *)
  m_role : role;
  m_content : jsstr;
  m_createdAt : Z;
}.

(** The world a request runs against: the three collections, the counter
    from which fresh ids are drawn, the clock read by [new Date()], and the
    list of contexts sent to the model collaborator so far. *)
Record world := mkWorld {
  sessions : list session;
  conversations : list conversation;
  messages : list message;
  next_oid : nat;
  clock : Z;
  model_calls : list (list (role * jsstr));
}.

Definition set_sessions (w : world) l :=
  mkWorld l (conversations w) (messages w) (next_oid w) (clock w) (model_calls w).
Definition set_conversations (w : world) l :=
  mkWorld (sessions w) l (messages w) (next_oid w) (clock w) (model_calls w).
Definition set_messages (w : world) l :=
  mkWorld (sessions w) (conversations w) l (next_oid w) (clock w) (model_calls w).
Definition bump_oid (w : world) :=
  mkWorld (sessions w) (conversations w) (messages w) (S (next_oid w)) (clock w)
    (model_calls w).
Definition log_call (w : world) c :=
  mkWorld (sessions w) (conversations w) (messages w) (next_oid w) (clock w)
    (model_calls w ++ [c]).
Definition set_clock (w : world) t :=
  mkWorld (sessions w) (conversations w) (messages w) (next_oid w) t
    (model_calls w).

(** Fresh identifiers: a 24-hex-digit ObjectId and a version-4-shaped UUID
    drawn from the id counter ([randomUUID] is random; what matters here is
    that it is fresh). *)
Definition hex_char (d : Z) : Z := if d <? 10 then 48 + d else 87 + d.

Fixpoint hexpad (k : nat) (n : Z) : jsstr :=
  match k with
  | O => []
  | S k' => hexpad k' (n / 16) ++ [hex_char (n mod 16)]
  end.

Definition object_id (n : nat) : jsstr := hexpad 24 (Z.of_nat n).
Arguments object_id : simpl never.

Definition random_uuid (n : nat) : jsstr :=
  hexpad 8 0 ++ [45] ++ hexpad 4 0 ++ [45] ++ js "4000" ++ [45] ++ js "8000"
  ++ [45] ++ hexpad 12 (Z.of_nat n).

(** ** A state monad with JavaScript exceptions

    [None] is a thrown exception; the world it carries keeps the writes
    committed before the throw. *)
Definition M (A : Type) := world -> option A * world.

Definition ret {A} (a : A) : M A := fun w => (Some a, w).
Definition bind {A B} (c : M A) (k : A -> M B) : M B :=
  fun w => match c w with
           | (Some a, w') => k a w'
           | (None, w') => (None, w')
           end.
Definition throw {A} : M A := fun w => (None, w).
Definition try_catch {A} (c : M A) (h : M A) : M A :=
  fun w => match c w with
           | (None, w') => h w'
           | r => r
           end.

Notation "x <- c ;; k" := (bind c (fun x => k))
  (at level 61, c at next level, right associativity).

(** [new Date()] *)
Definition now : M Z := fun w => (Some (clock w), w).

(** ** Environment *)
Record env := mkEnv {
  SESSION_EXPIRY_HOURS : option jsstr;
  CLEANUP_SECRET : option jsstr;
}.

(** [parseInt(v, 10)]: leading white space, an optional sign, then the
    longest run of decimal digits; no digit at all gives [NaN] ([None]). *)
Fixpoint take_digits (s : jsstr) : list Z :=
  match s with
  | u :: r => if (48 <=? u) && (u <=? 57) then (u - 48) :: take_digits r else []
  | [] => []
  end.

Definition digits_value (ds : list Z) : Z :=
  fold_left (fun a d => a * 10 + d) ds 0.

(** A JavaScript number as [parseInt] and the date code can produce it: an
    integer-valued double or an infinity ([NInf true] is [-Infinity]);
    [NaN] is the [None] of an [option number]. *)
Inductive number := NFin (z : Z) | NInf (negative : bool).

(** The double nearest to a non-negative integer [m] (ties to even), or
    [Infinity] when it rounds to [2^1024] or beyond. *)
Definition round_double_nonneg (m : Z) : number :=
  let e := Z.log2 m in
  if e <=? 52 then NFin m else
  let sh := e - 52 in
  let q := Z.shiftr m sh in
  let r := m - Z.shiftl q sh in
  let half := Z.shiftl 1 (sh - 1) in
  let q' := if (half <? r) || ((r =? half) && Z.odd q) then q + 1 else q in
  let v := Z.shiftl q' sh in
  if Z.shiftl 1 1024 <=? v then NInf false else NFin v.

Definition neg_number (n : number) : number :=
  match n with NFin z => NFin (- z) | NInf b => NInf (negb b) end.

(** [F(x)] for an integer [x]: the correctly rounded double, as Node.js
    (V8) computes [parseInt]; [-0] is identified with [0]. *)
Definition number_of_Z (x : Z) : number :=
  if x <? 0 then neg_number (round_double_nonneg (- x)) else round_double_nonneg x.

Definition parseInt10 (v : jsstr) : option number :=
  let s1 := drop_ws v in
  let '(sign, s2) := match s1 with
                     | 45 :: r => (-1, r)
                     | 43 :: r => (1, r)
                     | _ => (1, s1)
                     end in
  match take_digits s2 with
  | [] => None
  | ds => Some (number_of_Z (sign * digits_value ds))
  end.

(** ** Session store ([src/app/src/lib/session/index.ts]) *)

(** [hours <= 0] on a number that is not [NaN]. *)
Definition number_le_0 (n : number) : bool :=
  match n with NFin z => z <=? 0 | NInf negative => negative end.

(** [getSessionExpiryHours]; [None] is a thrown [Error]. *)
Definition getSessionExpiryHours (e : env) : option number :=
  match SESSION_EXPIRY_HOURS e with
  | None | Some [] => Some (NFin 24)
  | Some envValue =>
      match parseInt10 envValue with
      | None => None
      | Some hours => if number_le_0 hours then None else Some hours
      end
  end.

(** [TimeClip]: a time value beyond 8.64e15 ms either way is an invalid
    [Date] ([None]). *)
Definition time_clip (x : Z) : option Z :=
  if Z.abs x <=? 8640000000000000 then Some x else None.

(** [d.setHours(d.getHours() + h)] on a [Date] holding [t].  The local time
    zone is taken to keep one UTC offset (no daylight-saving change): the
    offset added by [getHours] is then subtracted again by [setHours], and
    the result is [t + h] hours, clipped.  The double arithmetic of
    [MakeTime] and [MakeDate] is exact on every clipped result (all
    magnitudes stay below 2^53), and on larger ones it still exceeds the
    range; a non-finite hour count gives an invalid [Date]. *)
Definition add_hours (t : Z) (h : number) : option Z :=
  match h with
  | NFin hours => time_clip (t + hours * 3600000)
  | NInf _ => None
  end.

(** [calculateExpiryDate]; the result is a [Date], [None] when invalid. *)
Definition calculateExpiryDate (e : env) : M (option Z) :=
  match getSessionExpiryHours e with
  | None => throw
  | Some h => t <- now ;; ret (add_hours t h)
  end.

(** [generateSessionId] *)
Definition generateSessionId : M jsstr :=
  fun w => (Some (random_uuid (next_oid w)), w).

(** [prisma.session.create]; Prisma rejects an invalid [Date] before
    writing anything. *)
Definition session_create (sessionId : jsstr) (expiresAt : option Z) : M unit :=
  match expiresAt with
  | None => throw
  | Some x =>
      fun w =>
        let s := mkSession (object_id (next_oid w)) sessionId x in
        (Some tt, bump_oid (set_sessions w (sessions w ++ [s])))
  end.

Definition createSession (e : env) : M (jsstr * option Z) :=
  sessionId <- generateSessionId ;;
  expiresAt <- calculateExpiryDate e ;;
  _ <- session_create sessionId expiresAt ;;
  ret (sessionId, expiresAt).

(** [prisma.session.findUnique({ where: { sessionId } })] *)
Definition lookup_session (ss : list session) (sessionId : jsstr) : option session :=
  find (fun s => jsstr_eqb (s_sessionId s) sessionId) ss.

Definition session_findUnique (sessionId : jsstr) : M (option session) :=
  fun w => (Some (lookup_session (sessions w) sessionId), w).

(** Result of [validateSession]: [{ valid: true, session }], or
    [{ valid: false, message }] with the not-found or the expired message. *)
Inductive validation :=
| Valid (s : session)
| InvalidNotFound
| InvalidExpired.

Definition is_valid (v : validation) : bool :=
  match v with Valid _ => true | _ => false end.

Definition validateSession (sessionId : jsstr) : M validation :=
  o <- session_findUnique sessionId ;;
  match o with
  | None => ret InvalidNotFound
  | Some s =>
      t <- now ;;
      if s_expiresAt s <? t then ret InvalidExpired else ret (Valid s)
  end.

(** [getSessionById]: the same lookup; of the included conversations the
    chat route uses nothing, only the session's [id]. *)
Definition getSessionById (sessionId : jsstr) : M (option session) :=
  session_findUnique sessionId.

(** ** Conversation and message store (Prisma calls of the chat route) *)

(** [orderBy: { createdAt: 'asc' }], a stable sort on [createdAt]. *)
Fixpoint insert_by_createdAt (m : message) (l : list message) : list message :=
  match l with
  | [] => [m]
  | x :: r =>
      if m_createdAt m <? m_createdAt x then m :: l
      else x :: insert_by_createdAt m r
  end.

Definition sort_by_createdAt (l : list message) : list message :=
  fold_left (fun acc m => insert_by_createdAt m acc) l [].

Definition messages_of (w : world) (conversationId : jsstr) : list message :=
  sort_by_createdAt
    (filter (fun m => jsstr_eqb (m_conversationId m) conversationId) (messages w)).

(** [prisma.conversation.findFirst({ where: { id, sessionId },
    include: { messages: { orderBy: { createdAt: 'asc' } } } })] *)
Definition find_owned (cs : list conversation) (id sessionId : jsstr)
  : option conversation :=
  find (fun c => jsstr_eqb (c_id c) id && jsstr_eqb (c_sessionId c) sessionId) cs.

Definition conversation_findFirst (id sessionId : jsstr)
  : M (option (conversation * list message)) :=
  fun w =>
    (Some (match find_owned (conversations w) id sessionId with
           | None => None
           | Some c => Some (c, messages_of w (c_id c))
           end), w).

(** [prisma.conversation.create({ data: { sessionId }, include: { messages: true } })] *)
Definition conversation_create (sessionId : jsstr)
  : M (conversation * list message) :=
  fun w =>
    let c := mkConversation (object_id (next_oid w)) sessionId (clock w) in
    (Some (c, []), bump_oid (set_conversations w (conversations w ++ [c]))).

(** [prisma.message.create({ data: { conversationId, role, content } })] *)
Definition message_create (conversationId : jsstr) (r : role) (content : jsstr)
  : M unit :=
  fun w =>
    let m := mkMessage (object_id (next_oid w)) conversationId r content (clock w) in
    (Some tt, bump_oid (set_messages w (messages w ++ [m]))).

(** ** Model collaborator ([generateResponse] of agent.ts)

    The model is an opaque function from the context to a reply ([None]:
    the call throws). Each context handed to it is recorded. *)
Definition model := list (role * jsstr) -> option jsstr.

Definition generateResponse (gen : model) (message : jsstr)
  (conversationHistory : list (role * jsstr)) : M jsstr :=
  let messages := conversationHistory ++ [(User, message)] in
  fun w =>
    let w' := log_call w messages in
    match gen messages with
    | Some text => (Some text, w')
    | None => (None, w')
    end.

(** ** HTTP responses *)
Inductive response :=
| RError (status : Z) (code : error_code)
| RSession (sessionId : jsstr) (expiresAt : Z)
| RChat (response : jsstr) (conversationId : jsstr) (sessionId : jsstr)
| RCleanup (deletedCount : nat).

Definition status (r : response) : Z :=
  match r with RError s _ => s | _ => 200 end.

(** ** [app.post('/session')] *)
Definition post_session (e : env) : M response :=
  try_catch
    (p <- createSession e ;;
     match snd p with
     | Some expiresAt => ret (RSession (fst p) expiresAt)
     | None => throw (* [toISOString] on an invalid [Date] *)
     end)
    (ret (RError 500 SESSION_CREATE_FAILED)).

(** ** [app.post('/chat')]

    [body] is the result of [c.req.json()]: [None] when it does not parse.
    The destructuring [const { message, sessionId, conversationId } = body]
    throws on a [null] body. *)
Definition chat_turn (gen : model) (m sid : jsstr) (cid : option jsstr)
  : M response :=
  sessionResult <- validateSession sid ;;
  if negb (is_valid sessionResult) then ret (RError 401 SESSION_INVALID) else
  osession <- getSessionById sid ;;
  match osession with
  | None => ret (RError 404 SESSION_NOT_FOUND)
  | Some session =>
      oconv <- match cid with
               | Some conversationId => conversation_findFirst conversationId (s_id session)
               | None => p <- conversation_create (s_id session) ;; ret (Some p)
               end ;;
      match oconv with
      | None => ret (RError 404 CONVERSATION_NOT_FOUND)
      | Some (conversation, history) =>
          _ <- message_create (c_id conversation) User m ;;
          let conversationHistory :=
            map (fun x => (m_role x, m_content x)) history in
          responseText <- generateResponse gen m conversationHistory ;;
          _ <- message_create (c_id conversation) Assistant responseText ;;
          ret (RChat responseText (c_id conversation) sid)
      end
  end.

Definition chat_body (gen : model) (body : option jval) : M response :=
  match body with
  | None => ret (RError 400 INVALID_REQUEST_BODY)
  | Some b =>
      match get_prop b (js "message"), get_prop b (js "sessionId"),
            get_prop b (js "conversationId") with
      | Some message, Some sessionId, Some conversationId =>
          match validate_chat_fields message sessionId conversationId with
          | inl code => ret (RError 400 code)
          | inr (m, sid, cid) => chat_turn gen m sid cid
          end
      | _, _, _ => throw
      end
  end.

Definition post_chat (gen : model) (body : option jval) : M response :=
  try_catch (chat_body gen body) (ret (RError 500 CHAT_ERROR)).

(** ** Cleanup of expired sessions *)

Definition mem (x : jsstr) (l : list jsstr) : bool := existsb (jsstr_eqb x) l.
Arguments mem : simpl never.

Definition expired_at (t : Z) (s : session) : bool := s_expiresAt s <? t.

(** Modelled from the spec: the [onDelete: Cascade] relations of the Prisma
    schema (the schema file is not among the sources), "a single cascading
    delete" from Session to its Conversations and from a Conversation to
    its Messages.  When the sessions of [ids] are deleted, the conversations
    they own and the messages of those conversations are deleted with them. *)
Definition cascade_children (ids : list jsstr) (w : world) : world :=
  let dconvs := map c_id (filter (fun c => mem (c_sessionId c) ids) (conversations w)) in
  set_conversations
    (set_messages w
       (filter (fun m => negb (mem (m_conversationId m) dconvs)) (messages w)))
    (filter (fun c => negb (mem (c_sessionId c) ids)) (conversations w)).

(** [cleanupExpiredSessions] of [session/index.ts]:
    [prisma.session.deleteMany({ where: { expiresAt: { lt: new Date() } } })]
    with the cascade, returning [result.count]. *)
Definition cleanupExpiredSessions_bulk : M nat :=
  t <- now ;;
  fun w =>
    let deleted := filter (expired_at t) (sessions w) in
    (Some (length deleted),
     set_sessions (cascade_children (map s_id deleted) w)
       (filter (fun s => negb (expired_at t s)) (sessions w))).

(** The Prisma calls of the transactional revision (agent.ts). *)
Definition session_findMany_expired (t : Z) : M (list jsstr) :=
  fun w => (Some (map s_id (filter (expired_at t) (sessions w))), w).

Definition conversation_findMany_in (sessionIds : list jsstr) : M (list jsstr) :=
  fun w =>
    (Some (map c_id (filter (fun c => mem (c_sessionId c) sessionIds)
                       (conversations w))), w).

Definition message_deleteMany_in (conversationIds : list jsstr) : M unit :=
  fun w =>
    (Some tt, set_messages w (filter (fun m => negb (mem (m_conversationId m) conversationIds))
                                (messages w))).

Definition conversation_deleteMany_in (sessionIds : list jsstr) : M unit :=
  fun w =>
    (Some tt, set_conversations w (filter (fun c => negb (mem (c_sessionId c) sessionIds))
                                     (conversations w))).

Definition session_deleteMany_in (ids : list jsstr) : M unit :=
  fun w =>
    (Some tt, set_sessions w (filter (fun s => negb (mem (s_id s) ids)) (sessions w))).

(** [cleanupExpiredSessions] of the transactional revision: the three
    deletes run in one [$transaction] in the order Message, Conversation,
    Session (no step fails in this model, so the transaction is the plain
    sequence). *)
Definition cleanupExpiredSessions_tx : M nat :=
  t <- now ;;
  expiredSessions <- session_findMany_expired t ;;
  if Nat.eqb (length expiredSessions) 0 then ret 0%nat else
  let sessionIds := expiredSessions in
  conversationIds <- conversation_findMany_in sessionIds ;;
  _ <- message_deleteMany_in conversationIds ;;
  _ <- conversation_deleteMany_in sessionIds ;;
  _ <- session_deleteMany_in sessionIds ;;
  ret (length expiredSessions).

Inductive cleanup_impl := Bulk | Transactional.

Definition cleanupExpiredSessions (impl : cleanup_impl) : M nat :=
  match impl with
  | Bulk => cleanupExpiredSessions_bulk
  | Transactional => cleanupExpiredSessions_tx
  end.

(** ** [app.post('/cleanup')]; the route imports the [session/index.ts]
    version. [authHeader] is [c.req.header('Authorization')]. *)
Definition post_cleanup (e : env) (authHeader : option jsstr) : M response :=
  try_catch
    (match CLEANUP_SECRET e with
     | None | Some [] => ret (RError 503 CLEANUP_NOT_CONFIGURED)
     | Some cleanupSecret =>
         match authHeader with
         | None | Some [] => ret (RError 401 AUTH_REQUIRED)
         | Some h =>
             if negb (starts_with h (js "Bearer ")) then ret (RError 401 AUTH_REQUIRED) else
             let token := substring_from h 7 in
             if negb (jsstr_eqb token cleanupSecret) then ret (RError 403 AUTH_FAILED) else
             deletedCount <- cleanupExpiredSessions Bulk ;;
             ret (RCleanup deletedCount)
         end
     end)
    (ret (RError 500 CLEANUP_ERROR)).

(** ** A small concrete world *)
Definition tok_a : jsstr := random_uuid 0.
Definition tok_b : jsstr := random_uuid 1.

Definition w_demo : world :=
  mkWorld
    [mkSession (object_id 0) tok_a 1000; mkSession (object_id 1) tok_b 5000]
    [mkConversation (object_id 2) (object_id 0) 100;
     mkConversation (object_id 3) (object_id 1) 200]
    [mkMessage (object_id 4) (object_id 3) User (js "hi") 300;
     mkMessage (object_id 5) (object_id 3) Assistant (js "hello") 301;
     mkMessage (object_id 6) (object_id 2) User (js "old") 150]
    10 2000 [].

Definition echo_model : model := fun ctx => Some (js "ok").

Definition chat_req (m : jsstr) (sid : jsstr) (cid : option jsstr)
  : list (jsstr * jval) :=
  [(js "message", JStr m); (js "sessionId", JStr sid)] ++
  match cid with Some c => [(js "conversationId", JStr c)] | None => [] end.

Definition session_b : session := mkSession (object_id 1) tok_b 5000.

(** A space followed by 400 letters: 401 code units, 400 after trimming. *)
Definition padded_msg : jsstr := 32 :: repeat 97%Z 400.

(** Four hundred nines: [parseInt] gives [Infinity]. *)
Definition nines400 : jsstr := repeat 57%Z 400.

(** ** The validation rules of the chat route, one at a time

    Each rule of the chain of [app.post('/chat')] as its own test, and the
    order in which the route applies them. *)
Definition violates (c : error_code) (message sessionId conversationId : jval) : bool :=
  match c with
  | MISSING_MESSAGE =>
      match message with JStr _ => negb (truthy message) | _ => true end
  | EMPTY_MESSAGE =>
      match message with JStr m => Nat.eqb (length (trim m)) 0 | _ => false end
  | MESSAGE_TOO_LONG =>
      match message with
      | JStr m => Nat.ltb MAX_MESSAGE_LENGTH (length (trim m))
      | _ => false
      end
  | MISSING_SESSION_ID =>
      match sessionId with JStr _ => negb (truthy sessionId) | _ => true end
  | INVALID_SESSION_ID_FORMAT =>
      match sessionId with JStr sid => negb (isValidUUID sid) | _ => false end
  | INVALID_CONVERSATION_ID_FORMAT =>
      match conversationId with
      | JUndefined | JNull => false
      | JStr cid => negb (isValidObjectId cid)
      | _ => true
      end
  | _ => false
  end.

Definition validation_order : list error_code :=
  [MISSING_MESSAGE; EMPTY_MESSAGE; MESSAGE_TOO_LONG; MISSING_SESSION_ID;
   INVALID_SESSION_ID_FORMAT; INVALID_CONVERSATION_ID_FORMAT].

Definition first_violated (message sessionId conversationId : jval) : option error_code :=
  find (fun c => violates c message sessionId conversationId) validation_order.

(** ** Vocabulary for the cleanup properties *)

(** The ids of the sessions expired at [t]. *)
Definition dead_ids (t : Z) (w : world) : list jsstr :=
  map s_id (filter (expired_at t) (sessions w)).

(** The ids of the conversations those sessions own. *)
Definition dead_conversation_ids (t : Z) (w : world) : list jsstr :=
  map c_id (filter (fun c => mem (c_sessionId c) (dead_ids t w)) (conversations w)).

(** The world left by removing, at time [t], the expired sessions, their
    conversations and the messages of those. *)
Definition cleanup_result (t : Z) (w : world) : world :=
  set_sessions (cascade_children (dead_ids t w) w)
    (filter (fun s => negb (expired_at t s)) (sessions w)).

(** Every conversation has its session and every message its
    conversation, and session ids are unique. *)
Definition well_formed (w : world) : Prop :=
  (forall c, In c (conversations w) ->
     exists s, In s (sessions w) /\ s_id s = c_sessionId c) /\
  (forall m, In m (messages w) ->
     exists c, In c (conversations w) /\ c_id c = m_conversationId m) /\
  NoDup (map s_id (sessions w)).

(** A world with one expired session (and its conversation and message)
    and one live one. *)
Definition w_cleanup : world :=
  mkWorld
    [mkSession (object_id 0) tok_a 1000; mkSession (object_id 1) tok_b 5000]
    [mkConversation (object_id 2) (object_id 0) 100;
     mkConversation (object_id 3) (object_id 1) 200]
    [mkMessage (object_id 4) (object_id 3) User (js "hi") 300;
     mkMessage (object_id 6) (object_id 2) User (js "old") 150]
    10 2000 [].

(** The body keys the chat route reads. *)
Definition chat_keys : list jsstr := [js "message"; js "sessionId"; js "conversationId"].

Definition read_fields (fs : list (jsstr * jval)) : list (jsstr * jval) :=
  filter (fun kv => mem (fst kv) chat_keys) fs.

(** A chat request carrying an image payload without its MIME type. *)
Definition image_req : list (jsstr * jval) :=
  chat_req (js "x") tok_b None ++ [(js "imageData", JStr (js "iVBORw0KGgo="))].

(** ** [app.get('/session/:sessionId')]

    The route parameter is any string: no format check precedes the lookup. *)

(** The two [message]s of [{ valid: false }] results of [validateSession]. *)
Inductive invalid_message := MsgNotFound | MsgExpired.

Inductive session_check :=
| SCInvalid (message : invalid_message)      (* 400, code SESSION_INVALID *)
| SCValid (sessionId : jsstr) (expiresAt : Z) (* 200, [valid: true] *)
| SCFailed.                                   (* 500, SESSION_VALIDATE_FAILED *)

Definition session_check_status (r : session_check) : Z :=
  match r with SCInvalid _ => 400 | SCValid _ _ => 200 | SCFailed => 500 end.

Definition get_session (sessionId : jsstr) : M session_check :=
  try_catch
    (result <- validateSession sessionId ;;
     match result with
     | InvalidNotFound => ret (SCInvalid MsgNotFound)
     | InvalidExpired => ret (SCInvalid MsgExpired)
     | Valid s => ret (SCValid (s_sessionId s) (s_expiresAt s))
     end)
    (ret SCFailed).

(** ** [app.get('/conversations')] *)

Definition MAX_MESSAGES_PER_CONVERSATION : nat := 100.

(** One element of the [conversations] array of the response; the dates
    are kept as numbers rather than ISO strings. *)
Record conversation_view := mkConversationView {
  v_id : jsstr;
  v_createdAt : Z;
  v_updatedAt : Z;
  v_messages : list (role * jsstr * Z);  (* role, content, createdAt *)
}.

Inductive conversations_response :=
| CVError (status : Z) (code : error_code)
| CVFetchError  (* 500; [ErrorCodes] has no [CONVERSATIONS_FETCH_ERROR], so no code *)
| CVList (conversations : list conversation_view).

(** [orderBy: { updatedAt: 'desc' }], a stable sort.  The [updatedAt]
    column is maintained by Prisma ([@updatedAt]) and is not among the
    fields the chat route writes, so it is a parameter [upd] of the
    conversation here. *)
Fixpoint insert_by_updatedAt_desc (upd : conversation -> Z) (c : conversation)
  (l : list conversation) : list conversation :=
  match l with
  | [] => [c]
  | x :: r =>
      if upd x <? upd c then c :: l else x :: insert_by_updatedAt_desc upd c r
  end.

Definition sort_by_updatedAt_desc (upd : conversation -> Z) (l : list conversation)
  : list conversation :=
  fold_left (fun acc c => insert_by_updatedAt_desc upd c acc) l [].

(** [prisma.conversation.findMany({ where: { sessionId }, orderBy: { updatedAt:
    'desc' }, include: { messages: { orderBy: { createdAt: 'asc' }, take: 100 } } })] *)
Definition conversation_findMany (upd : conversation -> Z) (sessionId : jsstr)
  : M (list (conversation * list message)) :=
  fun w =>
    (Some (map (fun c => (c, firstn MAX_MESSAGES_PER_CONVERSATION (messages_of w (c_id c))))
             (sort_by_updatedAt_desc upd
                (filter (fun c => jsstr_eqb (c_sessionId c) sessionId) (conversations w)))),
     w).

Definition to_view (upd : conversation -> Z) (p : conversation * list message)
  : conversation_view :=
  let '(conv, ms) := p in
  mkConversationView (c_id conv) (c_createdAt conv) (upd conv)
    (map (fun msg => (m_role msg, m_content msg, m_createdAt msg)) ms).

(** [sessionId] is [c.req.query('sessionId')], [None] when absent. *)
Definition get_conversations (upd : conversation -> Z) (sessionId : option jsstr)
  : M conversations_response :=
  try_catch
    (match sessionId with
     | None | Some [] => ret (CVError 400 MISSING_SESSION_ID)
     | Some sid =>
         if negb (isValidUUID sid) then ret (CVError 400 INVALID_SESSION_ID_FORMAT) else
         sessionResult <- validateSession sid ;;
         if negb (is_valid sessionResult) then ret (CVError 401 SESSION_INVALID) else
         osession <- getSessionById sid ;;
         match osession with
         | None => ret (CVError 404 SESSION_NOT_FOUND)
         | Some session =>
             conversations <- conversation_findMany upd (s_id session) ;;
             ret (CVList (map (to_view upd) conversations))
         end
     end)
    (ret CVFetchError).

(** ** Vocabulary for the listing properties *)

(** The [where: { sessionId }] filter of [conversation.findMany]. *)
Definition owned_by (sid : jsstr) (c : conversation) : bool := jsstr_eqb (c_sessionId c) sid.

(** An element of the [messages] array of the listing. *)
Definition message_view (msg : message) : role * jsstr * Z :=
  (m_role msg, m_content msg, m_createdAt msg).

(** A model collaborator whose every call throws. *)
Definition failing_model : model := fun _ => None.

(** Two chat requests on session [tok_b]: the first opens a conversation,
    which in [w_demo] gets the id [object_id 10]; the second continues it. *)
Definition turn1_req : list (jsstr * jval) := chat_req (js "x") tok_b None.
Definition turn2_req : list (jsstr * jval) := chat_req (js "y") tok_b (Some (object_id 10)).

(** * Properties *)

Lemma jsstr_eqb_spec (a b : jsstr) : jsstr_eqb a b = true <-> a = b.
Proof.
  revert b; induction a as [|x a IH]; intros [|y b]; simpl;
    try (split; congruence).
  rewrite andb_true_iff, Z.eqb_eq, IH. split.
  - intros [-> ->]; reflexivity.
  - intros H; inversion H; auto.
Qed.

Lemma jsstr_eqb_refl (a : jsstr) : jsstr_eqb a a = true.
Proof. apply jsstr_eqb_spec; reflexivity. Qed.

Lemma lookup_session_None (ss : list session) (tok : jsstr) :
  lookup_session ss tok = None <-> forall s, In s ss -> s_sessionId s <> tok.
Proof.
  unfold lookup_session; induction ss as [|s ss IH]; simpl.
  - split; [intros _ s [] | reflexivity].
  - destruct (jsstr_eqb (s_sessionId s) tok) eqn:E.
    + apply jsstr_eqb_spec in E. split; [discriminate|].
      intros H; exfalso; apply (H s); auto.
    + rewrite IH. split.
      * intros H s' [<-|Hin].
        -- intros Heq; subst; rewrite jsstr_eqb_refl in E; discriminate.
        -- auto.
      * intros H s' Hin; apply H; auto.
Qed.

(** C9. [validateSession] answers not-found exactly when no stored session
    carries the token, expired exactly when [now > expiresAt] for the
    matching record (so it is still valid at [now = expiresAt]), valid
    otherwise, and leaves the store untouched. *)
Theorem validateSession_spec (tok : jsstr) (w : world) :
  snd (validateSession tok w) = w /\
  (fst (validateSession tok w) = Some InvalidNotFound <->
     (forall s, In s (sessions w) -> s_sessionId s <> tok)) /\
  (forall s, lookup_session (sessions w) tok = Some s ->
     (fst (validateSession tok w) = Some InvalidExpired <-> clock w > s_expiresAt s) /\
     (fst (validateSession tok w) = Some (Valid s) <-> clock w <= s_expiresAt s)).
Proof.
  unfold validateSession, bind, session_findUnique, now, ret; simpl.
  destruct (lookup_session (sessions w) tok) as [s|] eqn:E.
  - destruct (s_expiresAt s <? clock w) eqn:Hlt; simpl.
    + apply Z.ltb_lt in Hlt. split; [reflexivity|]. split.
      * rewrite <- lookup_session_None, E. split; discriminate.
      * intros s' Hs'; inversion Hs'; subst. split; split; intros; try lia;
          try reflexivity; try discriminate.
    + apply Z.ltb_ge in Hlt. split; [reflexivity|]. split.
      * rewrite <- lookup_session_None, E. split; discriminate.
      * intros s' Hs'; inversion Hs'; subst. split; split; intros; try lia;
          try reflexivity; try discriminate.
  - simpl. split; [reflexivity|]. split.
    + rewrite <- lookup_session_None. split; auto.
    + intros s' Hs'; discriminate.
Qed.

Lemma find_owned_spec (cs : list conversation) (id sid : jsstr) (c : conversation) :
  find_owned cs id sid = Some c -> In c cs /\ c_id c = id /\ c_sessionId c = sid.
Proof.
  unfold find_owned; intros H.
  destruct (find_some _ _ H) as [Hin Hp].
  apply andb_true_iff in Hp as [H1 H2].
  apply jsstr_eqb_spec in H1, H2; auto.
Qed.

Lemma find_owned_None (cs : list conversation) (id sid : jsstr) :
  (forall c, In c cs -> c_id c = id -> c_sessionId c <> sid) ->
  find_owned cs id sid = None.
Proof.
  intros H; unfold find_owned.
  destruct (find _ cs) as [c|] eqn:E; [|reflexivity].
  destruct (find_some _ _ E) as [Hin Hp].
  apply andb_true_iff in Hp as [H1 H2].
  apply jsstr_eqb_spec in H1, H2. exfalso; eapply H; eauto.
Qed.

Definition to_context (l : list message) : list (role * jsstr) :=
  map (fun x => (m_role x, m_content x)) l.

(** The shape of every turn of [chat_turn] that ends with a reply. *)
Lemma chat_turn_success (gen : model) (m sid : jsstr) (cid : option jsstr)
  (w w' : world) (reply convId sid' : jsstr) :
  chat_turn gen m sid cid w = (Some (RChat reply convId sid'), w') ->
  exists s conv history,
    lookup_session (sessions w) sid = Some s /\ clock w <= s_expiresAt s /\
    match cid with
    | Some c => find_owned (conversations w) c (s_id s) = Some conv /\
                history = messages_of w (c_id conv)
    | None => conv = mkConversation (object_id (next_oid w)) (s_id s) (clock w) /\
              history = []
    end /\
    gen (to_context history ++ [(User, m)]) = Some reply /\
    convId = c_id conv /\ sid' = sid /\
    model_calls w' = model_calls w ++ [to_context history ++ [(User, m)]] /\
    exists n,
      messages w' = messages w ++
        [mkMessage (object_id n) (c_id conv) User m (clock w);
         mkMessage (object_id (S n)) (c_id conv) Assistant reply (clock w)].
Proof.
  intros H.
  unfold chat_turn, validateSession, getSessionById, session_findUnique, bind, ret,
    now, is_valid, conversation_findFirst, conversation_create, message_create,
    generateResponse in H; cbn in H.
  destruct (lookup_session (sessions w) sid) as [s|] eqn:Hs; [|inversion H].
  destruct (s_expiresAt s <? clock w) eqn:Hlt; cbn in H; [inversion H|].
  rewrite Hs in H; cbn in H.
  apply Z.ltb_ge in Hlt.
  destruct cid as [c|].
  - destruct (find_owned (conversations w) c (s_id s)) as [conv|] eqn:Hc;
      cbn in H; [|inversion H].
    destruct (gen _) as [t|] eqn:Hg; cbn in H; [|inversion H].
    inversion H; subst; clear H.
    exists s, conv, (messages_of w (c_id conv)).
    repeat split; auto.
    exists (next_oid w). cbn. rewrite <- app_assoc. reflexivity.
  - destruct (gen _) as [t|] eqn:Hg; cbn in H; [|inversion H].
    inversion H; subst; clear H.
    eexists s, _, []. repeat split; eauto.
    exists (S (next_oid w)). cbn. rewrite <- app_assoc. reflexivity.
Qed.

Lemma post_chat_validated (gen : model) (fs : list (jsstr * jval)) (w : world)
  (m sid : jsstr) (cid : option jsstr) :
  validate_chat_fields (obj_get fs (js "message")) (obj_get fs (js "sessionId"))
    (obj_get fs (js "conversationId")) = inr (m, sid, cid) ->
  post_chat gen (Some (JObj fs)) w
  = try_catch (chat_turn gen m sid cid) (ret (RError 500 CHAT_ERROR)) w.
Proof.
  intros H. unfold post_chat, chat_body, try_catch. cbn [get_prop].
  rewrite H. reflexivity.
Qed.

Lemma try_catch_not_error {A} (c : M A) (h : M A) (w w' : world) (a : A) :
  try_catch c h w = (Some a, w') ->
  c w = (Some a, w') \/ exists w1, c w = (None, w1) /\ h w1 = (Some a, w').
Proof.
  unfold try_catch. destruct (c w) as [[x|] w1]; intros H; auto.
  right; eauto.
Qed.

Lemma post_chat_reply (gen : model) (fs : list (jsstr * jval)) (w w' : world)
  (m sid : jsstr) (cid : option jsstr) (reply convId sid' : jsstr) :
  validate_chat_fields (obj_get fs (js "message")) (obj_get fs (js "sessionId"))
    (obj_get fs (js "conversationId")) = inr (m, sid, cid) ->
  post_chat gen (Some (JObj fs)) w = (Some (RChat reply convId sid'), w') ->
  chat_turn gen m sid cid w = (Some (RChat reply convId sid'), w').
Proof.
  intros Hv H. rewrite (post_chat_validated _ _ _ _ _ _ Hv) in H.
  apply try_catch_not_error in H as [H|[w1 [_ H]]]; auto.
  inversion H.
Qed.

Lemma chat_turn_not_owned (gen : model) (m sid cid : jsstr) (w : world) (s : session) :
  lookup_session (sessions w) sid = Some s ->
  clock w <= s_expiresAt s ->
  find_owned (conversations w) cid (s_id s) = None ->
  chat_turn gen m sid (Some cid) w = (Some (RError 404 CONVERSATION_NOT_FOUND), w).
Proof.
  intros Hs Hle Hc.
  assert (Hlt : (s_expiresAt s <? clock w) = false) by (apply Z.ltb_ge; lia).
  unfold chat_turn, validateSession, getSessionById, session_findUnique, bind, ret,
    now, is_valid, conversation_findFirst; cbn.
  rewrite Hs; cbn. rewrite Hlt; cbn. rewrite Hs; cbn. rewrite Hc. reflexivity.
Qed.

Lemma validate_chat_fields_message (mv sv cv : jval) (m sid : jsstr) (cid : option jsstr) :
  validate_chat_fields mv sv cv = inr (m, sid, cid) -> mv = JStr m /\ sv = JStr sid.
Proof.
  unfold validate_chat_fields.
  destruct mv; try discriminate.
  destruct (negb (truthy (JStr s))); try discriminate.
  destruct (Nat.eqb _ 0); try discriminate.
  destruct (Nat.ltb _ _); try discriminate.
  destruct sv; try discriminate.
  destruct (negb (truthy (JStr s0))); try discriminate.
  destruct (negb (isValidUUID s0)); try discriminate.
  destruct cv; try discriminate;
    try (destruct (negb (isValidObjectId s1)); try discriminate);
    intros H; inversion H; subst; auto.
Qed.

(** C1. When a chat turn names a conversation, the lookup is scoped to the
    requesting session: a reply is only ever produced for a conversation
    with that id owned by that session, and when no conversation with that
    id is owned by the (valid) session, even if one exists under another
    session, the turn fails with 404 [CONVERSATION_NOT_FOUND] and writes
    nothing. *)
Theorem chat_conversation_ownership (gen : model) (fs : list (jsstr * jval))
  (w w' : world) (m sid cid : jsstr) (s : session) (r : response) :
  validate_chat_fields (obj_get fs (js "message")) (obj_get fs (js "sessionId"))
    (obj_get fs (js "conversationId")) = inr (m, sid, Some cid) ->
  lookup_session (sessions w) sid = Some s ->
  post_chat gen (Some (JObj fs)) w = (Some r, w') ->
  (forall reply convId sid', r = RChat reply convId sid' ->
     convId = cid /\
     exists c, In c (conversations w) /\ c_id c = cid /\ c_sessionId c = s_id s) /\
  (clock w <= s_expiresAt s ->
   (forall c, In c (conversations w) -> c_id c = cid -> c_sessionId c <> s_id s) ->
   r = RError 404 CONVERSATION_NOT_FOUND /\ w' = w).
Proof.
  intros Hv Hs H. split.
  - intros reply convId sid' ->.
    pose proof (post_chat_reply _ _ _ _ _ _ _ _ _ _ Hv H) as Ht.
    apply chat_turn_success in Ht
      as (s0 & conv & history & Hs0 & _ & [Hc _] & _ & -> & _).
    rewrite Hs in Hs0; inversion Hs0; subst s0.
    apply find_owned_spec in Hc as (Hin & Hid & Hsid).
    split; [auto|]. exists conv; auto.
  - intros Hle Hnone.
    rewrite (post_chat_validated _ _ _ _ _ _ Hv) in H.
    unfold try_catch in H.
    rewrite (chat_turn_not_owned gen m sid cid w s Hs Hle (find_owned_None _ _ _ Hnone))
      in H.
    inversion H; auto.
Qed.

(** Session [b] asks for conversation [2], which belongs to session [a]. *)
Lemma chat_conversation_ownership_witness :
  validate_chat_fields (JStr (js "x")) (JStr tok_b) (JStr (object_id 2))
    = inr (js "x", tok_b, Some (object_id 2)) /\
  lookup_session (sessions w_demo) tok_b = Some session_b /\
  post_chat echo_model (Some (JObj (chat_req (js "x") tok_b (Some (object_id 2))))) w_demo
    = (Some (RError 404 CONVERSATION_NOT_FOUND), w_demo) /\
  In (mkConversation (object_id 2) (object_id 0) 100) (conversations w_demo) /\
  ((forall reply convId sid',
      RError 404 CONVERSATION_NOT_FOUND = RChat reply convId sid' ->
      convId = object_id 2 /\
      exists c, In c (conversations w_demo) /\ c_id c = object_id 2 /\
                c_sessionId c = s_id session_b) /\
   (clock w_demo <= s_expiresAt session_b ->
    (forall c, In c (conversations w_demo) -> c_id c = object_id 2 ->
               c_sessionId c <> s_id session_b) ->
    RError 404 CONVERSATION_NOT_FOUND = RError 404 CONVERSATION_NOT_FOUND /\
    w_demo = w_demo)).
Proof.
  split; [vm_compute; reflexivity|].
  split; [vm_compute; reflexivity|].
  split; [vm_compute; reflexivity|].
  split; [simpl; auto|].
  apply (chat_conversation_ownership echo_model
           (chat_req (js "x") tok_b (Some (object_id 2))) w_demo w_demo
           (js "x") tok_b (object_id 2) session_b).
  - vm_compute; reflexivity.
  - vm_compute; reflexivity.
  - vm_compute; reflexivity.
Defined.

(** C7. In every chat turn that produces a reply, the context handed to the
    model is the conversation's stored messages, as role/content pairs in
    ascending [createdAt] order, read before this turn wrote anything (none
    for a new conversation), followed by the current message once; the turn
    itself appends exactly the user message and the reply to the store. *)
Theorem chat_model_context (gen : model) (fs : list (jsstr * jval)) (w w' : world)
  (m sid : jsstr) (cid : option jsstr) (reply convId sid' : jsstr) :
  validate_chat_fields (obj_get fs (js "message")) (obj_get fs (js "sessionId"))
    (obj_get fs (js "conversationId")) = inr (m, sid, cid) ->
  post_chat gen (Some (JObj fs)) w = (Some (RChat reply convId sid'), w') ->
  model_calls w' =
    model_calls w ++
    [to_context (match cid with Some c => messages_of w c | None => [] end)
     ++ [(User, m)]] /\
  (forall c, cid = Some c -> convId = c) /\
  exists n,
    messages w' = messages w ++
      [mkMessage (object_id n) convId User m (clock w);
       mkMessage (object_id (S n)) convId Assistant reply (clock w)].
Proof.
  intros Hv H.
  apply (post_chat_reply _ _ _ _ _ _ _ _ _ _ Hv), chat_turn_success in H
    as (s & conv & history & _ & _ & Hc & _ & -> & _ & Hcalls & Hmsgs).
  destruct cid as [c|].
  - destruct Hc as [Hf ->].
    apply find_owned_spec in Hf as (_ & Hid & _).
    rewrite Hid in *. split; [exact Hcalls|]. split; [congruence|]. exact Hmsgs.
  - destruct Hc as [_ ->]. split; [exact Hcalls|]. split; [discriminate|].
    exact Hmsgs.
Qed.

(** C10. In every chat turn that produces a reply, the message stored for
    the user and the current message handed to the model are the request's
    [message] string itself, not its trimmed form. *)
Theorem chat_persists_untrimmed (gen : model) (fs : list (jsstr * jval))
  (w w' : world) (m sid : jsstr) (cid : option jsstr) (reply convId sid' : jsstr) :
  validate_chat_fields (obj_get fs (js "message")) (obj_get fs (js "sessionId"))
    (obj_get fs (js "conversationId")) = inr (m, sid, cid) ->
  post_chat gen (Some (JObj fs)) w = (Some (RChat reply convId sid'), w') ->
  obj_get fs (js "message") = JStr m /\
  (exists mu, In mu (messages w') /\ m_role mu = User /\
              m_conversationId mu = convId /\ m_content mu = m) /\
  (exists ctx, last (model_calls w') [] = ctx /\ last ctx (Assistant, []) = (User, m)).
Proof.
  intros Hv H.
  destruct (validate_chat_fields_message _ _ _ _ _ _ Hv) as [Hm _].
  apply (post_chat_reply _ _ _ _ _ _ _ _ _ _ Hv), chat_turn_success in H
    as (s & conv & history & _ & _ & _ & _ & -> & _ & Hcalls & n & Hmsgs).
  split; [exact Hm|]. split.
  - eexists; split.
    + rewrite Hmsgs. apply in_or_app. right. left. reflexivity.
    + simpl; auto.
  - eexists; split; [reflexivity|].
    rewrite Hcalls, last_last, last_last. reflexivity.
Qed.

Lemma chat_model_context_witness :
  validate_chat_fields (JStr (js " x ")) (JStr tok_b) (JStr (object_id 3))
    = inr (js " x ", tok_b, Some (object_id 3)) /\
  post_chat echo_model (Some (JObj (chat_req (js " x ") tok_b (Some (object_id 3))))) w_demo
    = (Some (RChat (js "ok") (object_id 3) tok_b),
       snd (post_chat echo_model
              (Some (JObj (chat_req (js " x ") tok_b (Some (object_id 3))))) w_demo)) /\
  let w' := snd (post_chat echo_model
                   (Some (JObj (chat_req (js " x ") tok_b (Some (object_id 3))))) w_demo) in
  model_calls w' =
    model_calls w_demo ++
    [to_context (messages_of w_demo (object_id 3)) ++ [(User, js " x ")]] /\
  (forall c, Some (object_id 3) = Some c -> object_id 3 = c) /\
  exists n,
    messages w' = messages w_demo ++
      [mkMessage (object_id n) (object_id 3) User (js " x ") (clock w_demo);
       mkMessage (object_id (S n)) (object_id 3) Assistant (js "ok") (clock w_demo)].
Proof.
  split; [vm_compute; reflexivity|].
  split; [vm_compute; reflexivity|].
  apply (chat_model_context echo_model
           (chat_req (js " x ") tok_b (Some (object_id 3))) w_demo _
           (js " x ") tok_b (Some (object_id 3)) (js "ok") (object_id 3) tok_b).
  - vm_compute; reflexivity.
  - vm_compute; reflexivity.
Defined.

(** The padded message is accepted and stored with its 401 code units. *)
Lemma chat_persists_untrimmed_witness :
  length padded_msg = 401%nat /\ length (trim padded_msg) = 400%nat /\
  validate_chat_fields (JStr padded_msg) (JStr tok_b) JUndefined
    = inr (padded_msg, tok_b, None) /\
  post_chat echo_model (Some (JObj (chat_req padded_msg tok_b None))) w_demo
    = (Some (RChat (js "ok") (object_id 10) tok_b),
       snd (post_chat echo_model (Some (JObj (chat_req padded_msg tok_b None))) w_demo)) /\
  let w' := snd (post_chat echo_model (Some (JObj (chat_req padded_msg tok_b None))) w_demo) in
  obj_get (chat_req padded_msg tok_b None) (js "message") = JStr padded_msg /\
  (exists mu, In mu (messages w') /\ m_role mu = User /\
              m_conversationId mu = object_id 10 /\ m_content mu = padded_msg) /\
  (exists ctx, last (model_calls w') [] = ctx /\
               last ctx (Assistant, []) = (User, padded_msg)).
Proof.
  split; [reflexivity|].
  split; [vm_compute; reflexivity|].
  split; [vm_compute; reflexivity|].
  split; [vm_compute; reflexivity|].
  apply (chat_persists_untrimmed echo_model (chat_req padded_msg tok_b None) w_demo _
           padded_msg tok_b None (js "ok") (object_id 10) tok_b).
  - vm_compute; reflexivity.
  - vm_compute; reflexivity.
Defined.

(** The chain of checks reports the first rule, in [validation_order], that
    the destructured fields violate. *)
Lemma validate_chat_fields_first_violated (mv sv cv : jval) :
  match validate_chat_fields mv sv cv with inl c => Some c | inr _ => None end
  = first_violated mv sv cv.
Proof.
  unfold validate_chat_fields, first_violated, validation_order; simpl.
  destruct mv; simpl; try reflexivity.
  destruct (negb (negb (length s =? 0)%nat)); simpl; try reflexivity.
  destruct (length (trim s) =? 0)%nat; simpl; try reflexivity.
  destruct (MAX_MESSAGE_LENGTH <? length (trim s))%nat; simpl; try reflexivity.
  destruct sv; simpl; try reflexivity.
  destruct (negb (negb (length s0 =? 0)%nat)); simpl; try reflexivity.
  destruct (negb (isValidUUID s0)); simpl; try reflexivity.
  destruct cv; simpl; try reflexivity.
  destruct (negb (isValidObjectId s1)); reflexivity.
Qed.

(** For a body that parses to anything but [null], a failed check is
    answered with 400 and the first violated rule, and nothing is read from
    or written to the store nor sent to the model. *)
Lemma post_chat_first_violated (gen : model) (b : jval) (w : world) (c : error_code) :
  b <> JNull -> b <> JUndefined ->
  first_violated (match get_prop b (js "message") with Some v => v | None => JUndefined end)
    (match get_prop b (js "sessionId") with Some v => v | None => JUndefined end)
    (match get_prop b (js "conversationId") with Some v => v | None => JUndefined end)
  = Some c ->
  post_chat gen (Some b) w = (Some (RError 400 c), w).
Proof.
  intros Hn Hu Hf.
  assert (Hg : forall k, get_prop b k =
                 Some (match get_prop b k with Some v => v | None => JUndefined end))
    by (intros k; destruct b; simpl; congruence).
  unfold post_chat, chat_body, try_catch.
  rewrite (Hg (js "message")), (Hg (js "sessionId")), (Hg (js "conversationId")).
  rewrite <- validate_chat_fields_first_violated in Hf.
  destruct (validate_chat_fields _ _ _) as [c'|]; inversion Hf; reflexivity.
Qed.

(** C2. A request whose body is the JSON literal [null] parses, and the
    destructuring of [null] then throws: the route answers 500
    [CHAT_ERROR] instead of a 400 validation error. *)
Theorem post_chat_null_body (gen : model) (w : world) :
  post_chat gen (Some JNull) w = (Some (RError 500 CHAT_ERROR), w).
Proof. reflexivity. Qed.

Lemma validate_message_ok (m : jsstr) (sv cv : jval) :
  (0 < length (trim m))%nat -> (length (trim m) <= MAX_MESSAGE_LENGTH)%nat ->
  validate_chat_fields (JStr m) sv cv =
    match sv with
    | JStr sid =>
        if negb (truthy sv) then inl MISSING_SESSION_ID else
        if negb (isValidUUID sid) then inl INVALID_SESSION_ID_FORMAT else
        match cv with
        | JUndefined | JNull => inr (m, sid, None)
        | JStr cid =>
            if negb (isValidObjectId cid)
            then inl INVALID_CONVERSATION_ID_FORMAT else inr (m, sid, Some cid)
        | _ => inl INVALID_CONVERSATION_ID_FORMAT
        end
    | _ => inl MISSING_SESSION_ID
    end.
Proof.
  intros Hpos Hmax.
  destruct m as [|u r]; [simpl in Hpos; lia|].
  unfold validate_chat_fields. cbn [truthy]. simpl negb.
  destruct (length (trim (u :: r)) =? 0)%nat eqn:E;
    [apply Nat.eqb_eq in E; lia|].
  destruct (Nat.ltb _ _) eqn:E2; [apply Nat.ltb_lt in E2; lia|].
  reflexivity.
Qed.

Lemma validate_too_long (m : jsstr) (sv cv : jval) :
  (MAX_MESSAGE_LENGTH < length (trim m))%nat ->
  validate_chat_fields (JStr m) sv cv = inl MESSAGE_TOO_LONG.
Proof.
  intros Hmax.
  destruct m as [|u r]; [simpl in Hmax; unfold MAX_MESSAGE_LENGTH in Hmax; lia|].
  unfold validate_chat_fields. cbn [truthy]. simpl negb.
  destruct (length (trim (u :: r)) =? 0)%nat eqn:E;
    [apply Nat.eqb_eq in E; unfold MAX_MESSAGE_LENGTH in Hmax; lia|].
  destruct (Nat.ltb _ _) eqn:E2; [reflexivity|apply Nat.ltb_ge in E2; lia].
Qed.

(** C8, as the code has it. A message whose trimmed length is 400 passes
    the three message checks (any failure is about [sessionId] or
    [conversationId]); one whose trimmed length is 401 fails
    [MESSAGE_TOO_LONG] whatever the other fields; a non-empty message that
    is all white space fails [EMPTY_MESSAGE]; the empty string is caught by
    the presence check [!message] and fails [MISSING_MESSAGE]. *)
Theorem chat_message_length_rules (m : jsstr) (sv cv : jval) :
  (length (trim m) = 400%nat -> forall c, validate_chat_fields (JStr m) sv cv = inl c ->
     c <> MISSING_MESSAGE /\ c <> EMPTY_MESSAGE /\ c <> MESSAGE_TOO_LONG) /\
  (length (trim m) = 401%nat -> validate_chat_fields (JStr m) sv cv = inl MESSAGE_TOO_LONG) /\
  (m <> [] -> trim m = [] -> validate_chat_fields (JStr m) sv cv = inl EMPTY_MESSAGE) /\
  validate_chat_fields (JStr []) sv cv = inl MISSING_MESSAGE.
Proof.
  split; [|split; [|split]].
  - intros Hl c Hc.
    rewrite validate_message_ok in Hc by (rewrite Hl; unfold MAX_MESSAGE_LENGTH; lia).
    destruct sv; try (inversion Hc; subst; repeat split; discriminate).
    destruct (negb (truthy (JStr s))); [inversion Hc; repeat split; discriminate|].
    destruct (negb (isValidUUID s)); [inversion Hc; repeat split; discriminate|].
    destruct cv; try (inversion Hc; subst; repeat split; discriminate).
    destruct (negb (isValidObjectId s0)); inversion Hc; repeat split; discriminate.
  - intros Hl. apply validate_too_long. rewrite Hl. unfold MAX_MESSAGE_LENGTH. lia.
  - intros Hm Ht. destruct m as [|u r]; [congruence|].
    unfold validate_chat_fields; simpl negb. rewrite Ht. reflexivity.
  - reflexivity.
Qed.

(** C8 fails on the empty string: it is reported as a missing message,
    not as an empty one. *)
Lemma empty_message_reported_missing :
  trim [] = [] /\
  post_chat echo_model (Some (JObj (chat_req [] tok_b None))) w_demo
    = (Some (RError 400 MISSING_MESSAGE), w_demo) /\
  fst (post_chat echo_model (Some (JObj (chat_req [] tok_b None))) w_demo)
    <> Some (RError 400 EMPTY_MESSAGE).
Proof.
  split; [reflexivity|]. split; [vm_compute; reflexivity|].
  vm_compute. discriminate.
Qed.

(** ** Cleanup *)

Lemma mem_spec (x : jsstr) (l : list jsstr) : mem x l = true <-> In x l.
Proof.
  unfold mem. rewrite existsb_exists. split.
  - intros (y & Hy & E). apply jsstr_eqb_spec in E; subst; auto.
  - intros H. exists x; split; auto. apply jsstr_eqb_refl.
Qed.

Lemma nodup_map_inj {A B} (f : A -> B) (l : list A) (x y : A) :
  NoDup (map f l) -> In x l -> In y l -> f x = f y -> x = y.
Proof.
  induction l as [|a l IH]; simpl; [tauto|].
  intros Hnd Hx Hy Hf. inversion Hnd as [|? ? Hnot Hnd']; subst.
  destruct Hx as [<-|Hx], Hy as [<-|Hy]; auto.
  - exfalso; apply Hnot; rewrite Hf; apply in_map; auto.
  - exfalso; apply Hnot; rewrite <- Hf; apply in_map; auto.
Qed.

Lemma filter_all {A} (f : A -> bool) (l : list A) :
  (forall x, In x l -> f x = true) -> filter f l = l.
Proof.
  induction l as [|a l IH]; simpl; intros H; auto.
  rewrite H by auto. f_equal. apply IH; auto.
Qed.

Lemma filter_ext_in' {A} (f g : A -> bool) (l : list A) :
  (forall x, In x l -> f x = g x) -> filter f l = filter g l.
Proof.
  induction l as [|a l IH]; simpl; intros H; auto.
  rewrite H by auto. rewrite IH by auto. reflexivity.
Qed.

Lemma mem_dead (t : Z) (w : world) (s : session) :
  NoDup (map s_id (sessions w)) -> In s (sessions w) ->
  mem (s_id s) (dead_ids t w) = expired_at t s.
Proof.
  intros Hnd Hin. unfold dead_ids.
  destruct (expired_at t s) eqn:E.
  - apply mem_spec, in_map, filter_In; auto.
  - destruct (mem (s_id s) _) eqn:M; auto.
    apply mem_spec, in_map_iff in M as (s' & Hid & Hs').
    apply filter_In in Hs' as [Hin' E'].
    rewrite (nodup_map_inj s_id (sessions w) s' s Hnd Hin' Hin Hid) in E'.
    congruence.
Qed.

Lemma world_eta (w : world) :
  mkWorld (sessions w) (conversations w) (messages w) (next_oid w) (clock w)
    (model_calls w) = w.
Proof. destruct w; reflexivity. Qed.

(** Both implementations compute [cleanup_result] and count the expired
    sessions. *)
Lemma cleanup_impl_eq (impl : cleanup_impl) (w : world) :
  NoDup (map s_id (sessions w)) ->
  cleanupExpiredSessions impl w =
    (Some (length (filter (expired_at (clock w)) (sessions w))),
     cleanup_result (clock w) w).
Proof.
  intros Hnd. destruct impl.
  - reflexivity.
  - unfold cleanupExpiredSessions, cleanupExpiredSessions_tx, bind, ret, now,
      session_findMany_expired, conversation_findMany_in, message_deleteMany_in,
      conversation_deleteMany_in, session_deleteMany_in; cbn.
    rewrite length_map.
    destruct (filter (expired_at (clock w)) (sessions w)) as [|s0 l0] eqn:Hf.
    + cbn. unfold cleanup_result, cascade_children, dead_ids.
      rewrite Hf; cbn.
      assert (Hnil : forall A (l : list A), filter (fun _ => false) l = [])
        by (induction l; auto).
      rewrite Hnil; cbn.
      rewrite !filter_all; try (intros; reflexivity).
      * unfold set_sessions, set_conversations, set_messages; cbn.
        rewrite world_eta. reflexivity.
      * intros s Hs. destruct (expired_at (clock w) s) eqn:E; auto.
        assert (In s (filter (expired_at (clock w)) (sessions w)))
          by (apply filter_In; auto).
        rewrite Hf in H; destruct H.
    + cbn. unfold cleanup_result, cascade_children. cbn.
      unfold dead_ids. rewrite Hf. cbn. f_equal. f_equal.
      change (s_id s0 :: map s_id l0) with (map s_id (s0 :: l0)).
      rewrite <- Hf. apply filter_ext_in'.
      intros s Hs. f_equal. rewrite <- (mem_dead (clock w) w s Hnd Hs).
      reflexivity.
Qed.

(** Keeping only some sessions keeps their ids distinct. *)
Lemma session_ids_filter_nodup (keep : session -> bool) (ss : list session) :
  NoDup (map s_id ss) -> NoDup (map s_id (filter keep ss)).
Proof.
  induction ss as [|s ss IH]; cbn [filter map]; intros Hnd; [constructor|].
  apply NoDup_cons_iff in Hnd as [Hout Hnd].
  destruct (keep s); cbn [map]; [|exact (IH Hnd)].
  apply NoDup_cons; [|exact (IH Hnd)].
  rewrite in_map_iff. intros (s' & Hid & Hin). apply Hout.
  rewrite filter_In in Hin. rewrite <- Hid. apply in_map, Hin.
Qed.

Lemma filter_none {A} (f : A -> bool) (l : list A) :
  (forall x, In x l -> f x = false) -> filter f l = [].
Proof.
  induction l as [|a l IH]; simpl; intros H; auto.
  rewrite H by auto. apply IH; auto.
Qed.

Lemma cleanup_result_nothing_expired (t : Z) (w : world) :
  (forall s, In s (sessions w) -> ~ s_expiresAt s < t) ->
  filter (expired_at t) (sessions w) = [] /\ cleanup_result t w = w.
Proof.
  intros H.
  assert (Hf : filter (expired_at t) (sessions w) = []).
  { apply filter_none. intros s Hs. unfold expired_at.
    apply Z.ltb_ge. specialize (H s Hs). lia. }
  split; [exact Hf|].
  unfold cleanup_result, cascade_children, dead_ids. rewrite Hf. cbn.
  assert (Hm : forall x, mem x [] = false) by reflexivity.
  rewrite (filter_none (fun c => mem (c_sessionId c) [])) by auto. cbn.
  rewrite !filter_all.
  - unfold set_sessions, set_conversations, set_messages; cbn. apply world_eta.
  - intros s Hs. unfold expired_at. rewrite (proj2 (Z.ltb_ge _ _)); auto.
    specialize (H s Hs). lia.
  - intros c _. rewrite Hm. reflexivity.
  - intros m _. reflexivity.
Qed.

(** C5. Both implementations of [cleanupExpiredSessions] (the bulk delete
    relying on the schema's cascade, and the transaction deleting Messages,
    then Conversations, then Sessions) delete exactly the sessions with
    [expiresAt < now], the conversations those sessions own and the
    messages of those conversations, and return the number of sessions
    removed; afterwards no conversation or message of a deleted session is
    left, a well-formed store stays well formed, and a second run at a time
    at which nothing left has expired returns 0 and changes nothing. *)
Theorem cleanup_expired_sessions_spec (impl : cleanup_impl) (w : world) :
  NoDup (map s_id (sessions w)) ->
  let t := clock w in
  let w' := snd (cleanupExpiredSessions impl w) in
  fst (cleanupExpiredSessions impl w) = Some (length (filter (expired_at t) (sessions w))) /\
  sessions w' = filter (fun s => negb (expired_at t s)) (sessions w) /\
  conversations w' =
    filter (fun c => negb (mem (c_sessionId c) (dead_ids t w))) (conversations w) /\
  messages w' =
    filter (fun m => negb (mem (m_conversationId m) (dead_conversation_ids t w)))
      (messages w) /\
  (forall c, In c (conversations w') -> ~ In (c_sessionId c) (dead_ids t w)) /\
  (forall m, In m (messages w') ->
     forall c, In c (conversations w) -> c_id c = m_conversationId m ->
       ~ In (c_sessionId c) (dead_ids t w)) /\
  (well_formed w -> well_formed w') /\
  (forall t', (forall s, In s (sessions w') -> ~ s_expiresAt s < t') ->
     cleanupExpiredSessions impl (set_clock w' t') = (Some 0%nat, set_clock w' t')).
Proof.
  intros Hnd. cbv zeta.
  rewrite (cleanup_impl_eq impl w Hnd). cbn [fst snd].
  assert (Hcv : forall c, In c (conversations (cleanup_result (clock w) w)) ->
                  ~ In (c_sessionId c) (dead_ids (clock w) w)).
  { intros c Hc. cbn in Hc. apply filter_In in Hc as [_ Hc].
    rewrite <- mem_spec. destruct (mem _ _); simpl in Hc; congruence. }
  assert (Hmv : forall m, In m (messages (cleanup_result (clock w) w)) ->
                  forall c, In c (conversations w) -> c_id c = m_conversationId m ->
                  ~ In (c_sessionId c) (dead_ids (clock w) w)).
  { intros m Hm c Hc Hid Hdead. cbn in Hm. apply filter_In in Hm as [_ Hm].
    assert (Hin : In (m_conversationId m) (dead_conversation_ids (clock w) w)).
    { unfold dead_conversation_ids. rewrite <- Hid. apply in_map, filter_In.
      split; auto. apply mem_spec; auto. }
    apply mem_spec in Hin. unfold dead_conversation_ids in Hin.
    rewrite Hin in Hm. discriminate. }
  split; [reflexivity|].
  split; [reflexivity|].
  split; [reflexivity|].
  split; [reflexivity|].
  split; [exact Hcv|].
  split; [exact Hmv|].
  split.
  - intros (Hwc & Hwm & Hwn). split; [|split].
    + intros c Hc. pose proof (Hcv c Hc) as Hnot.
      cbn in Hc. apply filter_In in Hc as [Hc _].
      destruct (Hwc c Hc) as (s & Hs & Hsid). exists s. split; auto.
      cbn. apply filter_In. split; auto.
      rewrite <- (mem_dead (clock w) w s Hwn Hs).
      destruct (mem _ _) eqn:E; auto.
      apply mem_spec in E. rewrite Hsid in E. contradiction.
    + intros m Hm. pose proof (Hmv m Hm) as Hnot.
      cbn in Hm. apply filter_In in Hm as [Hm _].
      destruct (Hwm m Hm) as (c & Hc & Hcid). exists c. split; auto.
      cbn. apply filter_In. split; auto.
      destruct (mem _ _) eqn:E; auto.
      apply mem_spec in E. exfalso; exact (Hnot c Hc Hcid E).
    + cbn. apply session_ids_filter_nodup; auto.
  - intros t' Hnone.
    assert (Hnd' : NoDup (map s_id (sessions (set_clock (cleanup_result (clock w) w) t'))))
      by (cbn; apply session_ids_filter_nodup; auto).
    rewrite (cleanup_impl_eq impl _ Hnd').
    destruct (cleanup_result_nothing_expired t' (set_clock (cleanup_result (clock w) w) t'))
      as [Hf Heq]; [exact Hnone|].
    cbn [clock set_clock]. rewrite Hf. cbn [length].
    f_equal. exact Heq.
Qed.

Lemma w_cleanup_nodup : NoDup (map s_id (sessions w_cleanup)).
Proof.
  cbn. constructor.
  - intros [H|[]]. vm_compute in H. discriminate.
  - constructor; [intros []|constructor].
Defined.

(** In [w_cleanup] the transactional cleanup removes one session, its
    conversation and that conversation's message, and a second run removes
    nothing. *)
Lemma cleanup_expired_sessions_spec_witness :
  NoDup (map s_id (sessions w_cleanup)) /\
  fst (cleanupExpiredSessions Transactional w_cleanup) = Some 1%nat /\
  length (conversations (snd (cleanupExpiredSessions Transactional w_cleanup))) = 1%nat /\
  length (messages (snd (cleanupExpiredSessions Transactional w_cleanup))) = 1%nat /\
  fst (cleanupExpiredSessions Transactional
         (set_clock (snd (cleanupExpiredSessions Transactional w_cleanup)) 2000))
    = Some 0%nat.
Proof.
  split; [exact w_cleanup_nodup|].
  destruct (cleanup_expired_sessions_spec Transactional w_cleanup w_cleanup_nodup)
    as (Hn & Hs & Hc & Hm & _ & _ & _ & Hidem).
  split; [rewrite Hn; reflexivity|].
  split; [rewrite Hc; vm_compute; reflexivity|].
  split; [rewrite Hm; vm_compute; reflexivity|].
  rewrite Hidem; [reflexivity|].
  rewrite Hs. intros s Hin. apply filter_In in Hin as [Hin Hne].
  unfold expired_at in Hne. apply negb_true_iff, Z.ltb_ge in Hne.
  cbn [clock w_cleanup] in Hne. lia.
Defined.

(** ** Image fields *)

Lemma obj_get_read_fields (fs : list (jsstr * jval)) (k : jsstr) :
  mem k chat_keys = true -> obj_get (read_fields fs) k = obj_get fs k.
Proof.
  intros Hk. unfold read_fields.
  induction fs as [|[k' v] fs IH]; [reflexivity|].
  cbn [filter fst]. destruct (mem k' chat_keys) eqn:E.
  - cbn [obj_get]. rewrite IH. reflexivity.
  - rewrite IH. cbn [obj_get].
    destruct (jsstr_eqb k k') eqn:Ekk.
    + apply jsstr_eqb_spec in Ekk; subst. congruence.
    + destruct (obj_get fs k); reflexivity.
Qed.

(** C3, as the code has it. The chat route reads only [message],
    [sessionId] and [conversationId] from an object body: any other field,
    an image payload or its MIME type included, changes nothing in the
    outcome, in the store or in what the model receives (a list of text
    role/content pairs). *)
Theorem post_chat_ignores_other_fields (gen : model) (fs : list (jsstr * jval)) (w : world) :
  post_chat gen (Some (JObj fs)) w = post_chat gen (Some (JObj (read_fields fs))) w.
Proof.
  unfold post_chat, chat_body. cbn [get_prop].
  rewrite !obj_get_read_fields by reflexivity.
  reflexivity.
Qed.

(** C3 fails: an image payload without a MIME type is not refused, and the
    turn is the very turn of the same request without the image; the model
    receives the text alone. *)
Lemma unpaired_image_accepted_and_dropped :
  fst (post_chat echo_model (Some (JObj image_req)) w_demo)
    = Some (RChat (js "ok") (object_id 10) tok_b) /\
  post_chat echo_model (Some (JObj image_req)) w_demo
    = post_chat echo_model (Some (JObj (chat_req (js "x") tok_b None))) w_demo /\
  model_calls (snd (post_chat echo_model (Some (JObj image_req)) w_demo))
    = [[(User, js "x")]].
Proof.
  split; [vm_compute; reflexivity|].
  split; [vm_compute; reflexivity|].
  vm_compute; reflexivity.
Qed.

(** ** Session time to live *)

(** C4, as the code has it. [SESSION_EXPIRY_HOURS] is read and checked by
    every [createSession] call, inside the request: absent or empty gives
    24 hours; a value on which [parseInt] gives [NaN] or a number [<= 0]
    makes the call throw, and [POST /session] answers 500
    [SESSION_CREATE_FAILED] without writing anything; a positive finite
    value [h] gives a session expiring [h] hours from now when that instant
    is a valid [Date], and otherwise (as for [Infinity]) the [Date] is
    invalid, the create throws and the answer is the same 500. *)
Theorem post_session_ttl (e : env) (w : world) :
  ((SESSION_EXPIRY_HOURS e = None \/ SESSION_EXPIRY_HOURS e = Some []) ->
   Z.abs (clock w + 24 * 3600000) <= 8640000000000000 ->
   post_session e w =
     (Some (RSession (random_uuid (next_oid w)) (clock w + 24 * 3600000)),
      bump_oid (set_sessions w (sessions w ++
        [mkSession (object_id (next_oid w)) (random_uuid (next_oid w))
           (clock w + 24 * 3600000)])))) /\
  (forall v, SESSION_EXPIRY_HOURS e = Some v -> v <> [] ->
   (parseInt10 v = None \/ exists n, parseInt10 v = Some n /\ number_le_0 n = true) ->
   post_session e w = (Some (RError 500 SESSION_CREATE_FAILED), w)) /\
  (forall v h, SESSION_EXPIRY_HOURS e = Some v -> v <> [] -> parseInt10 v = Some (NFin h) ->
   0 < h -> Z.abs (clock w + h * 3600000) <= 8640000000000000 ->
   post_session e w =
     (Some (RSession (random_uuid (next_oid w)) (clock w + h * 3600000)),
      bump_oid (set_sessions w (sessions w ++
        [mkSession (object_id (next_oid w)) (random_uuid (next_oid w))
           (clock w + h * 3600000)])))) /\
  (forall v, SESSION_EXPIRY_HOURS e = Some v -> v <> [] ->
   (parseInt10 v = Some (NInf false) \/
    exists h, parseInt10 v = Some (NFin h) /\ 0 < h /\
              8640000000000000 < Z.abs (clock w + h * 3600000)) ->
   post_session e w = (Some (RError 500 SESSION_CREATE_FAILED), w)).
Proof.
  unfold post_session, createSession, calculateExpiryDate, getSessionExpiryHours,
    add_hours, time_clip.
  split; [|split; [|split]].
  - intros [H|H] Hr; rewrite H; unfold bind, now, ret, try_catch, generateSessionId;
      cbn [fst snd]; rewrite (proj2 (Z.leb_le _ _) Hr); reflexivity.
  - intros v Hv Hne Hbad. rewrite Hv. destruct v as [|u r]; [congruence|].
    destruct Hbad as [Hn|(n & Hn & Hle)].
    + rewrite Hn. reflexivity.
    + rewrite Hn, Hle. reflexivity.
  - intros v h Hv Hne Hh Hpos Hr. rewrite Hv. destruct v as [|u r]; [congruence|].
    rewrite Hh. cbn [number_le_0]. rewrite (proj2 (Z.leb_gt h 0) Hpos).
    unfold bind, now, ret, try_catch, generateSessionId; cbn [fst snd].
    rewrite (proj2 (Z.leb_le _ _) Hr). reflexivity.
  - intros v Hv Hne Hbig. rewrite Hv. destruct v as [|u r]; [congruence|].
    destruct Hbig as [Hn|(h & Hh & Hpos & Hr)].
    + rewrite Hn. reflexivity.
    + rewrite Hh. cbn [number_le_0]. rewrite (proj2 (Z.leb_gt h 0) Hpos).
      unfold bind, now, ret, try_catch, generateSessionId; cbn [fst snd].
      rewrite (proj2 (Z.leb_gt _ _) Hr). reflexivity.
Qed.

(** C4 fails: with [SESSION_EXPIRY_HOURS=0] nothing stops at startup; each
    session request fails on its own with a 500. *)
Lemma zero_ttl_fails_per_request :
  post_session (mkEnv (Some (js "0")) None) w_demo
    = (Some (RError 500 SESSION_CREATE_FAILED), w_demo).
Proof. vm_compute; reflexivity. Qed.

(** ** Cleanup endpoint *)

Lemma starts_with_bearer (tok : jsstr) : starts_with (js "Bearer " ++ tok) (js "Bearer ") = true.
Proof. destruct tok; reflexivity. Qed.

(** C6, as the code has it. The configuration check comes first: without a
    (non-empty) [CLEANUP_SECRET] the answer is 503 whatever the header.
    With a secret configured: no header, an empty one or one not starting
    with ["Bearer "] gives 401; a bearer token other than the secret gives
    403; the secret itself runs the bulk cleanup and returns its count. *)
Theorem post_cleanup_auth (e : env) (hdr : option jsstr) (w : world) :
  ((CLEANUP_SECRET e = None \/ CLEANUP_SECRET e = Some []) ->
   post_cleanup e hdr w = (Some (RError 503 CLEANUP_NOT_CONFIGURED), w)) /\
  (forall secret, CLEANUP_SECRET e = Some secret -> secret <> [] ->
   (hdr = None \/ exists h, hdr = Some h /\ starts_with h (js "Bearer ") = false) ->
   post_cleanup e hdr w = (Some (RError 401 AUTH_REQUIRED), w)) /\
  (forall secret tok, CLEANUP_SECRET e = Some secret -> secret <> [] ->
   hdr = Some (js "Bearer " ++ tok) -> tok <> secret ->
   post_cleanup e hdr w = (Some (RError 403 AUTH_FAILED), w)) /\
  (forall secret, CLEANUP_SECRET e = Some secret -> secret <> [] ->
   hdr = Some (js "Bearer " ++ secret) ->
   post_cleanup e hdr w =
     (Some (RCleanup (length (filter (expired_at (clock w)) (sessions w)))),
      snd (cleanupExpiredSessions Bulk w))).
Proof.
  unfold post_cleanup. split; [|split; [|split]].
  - intros [H|H]; rewrite H; reflexivity.
  - intros secret Hs Hne Hh. rewrite Hs. destruct secret as [|x r]; [congruence|].
    destruct Hh as [->|(h & -> & Hb)]; [reflexivity|].
    destruct h as [|y h']; [reflexivity|]. rewrite Hb. reflexivity.
  - intros secret tok Hs Hne -> Hneq. rewrite Hs.
    destruct secret as [|x r]; [congruence|].
    rewrite starts_with_bearer. cbn [negb]. unfold substring_from.
    change (skipn 7 (js "Bearer " ++ tok)) with tok.
    destruct (jsstr_eqb tok (x :: r)) eqn:E.
    + apply jsstr_eqb_spec in E. congruence.
    + reflexivity.
  - intros secret Hs Hne ->. rewrite Hs.
    destruct secret as [|x r]; [congruence|].
    rewrite starts_with_bearer. cbn [negb]. unfold substring_from.
    change (skipn 7 (js "Bearer " ++ x :: r)) with (x :: r).
    rewrite jsstr_eqb_refl. reflexivity.
Qed.

(** C6 fails: with no secret configured, a request without any
    Authorization header gets 503, not 401. *)
Lemma no_secret_no_header_is_503 :
  post_cleanup (mkEnv None None) None w_demo
    = (Some (RError 503 CLEANUP_NOT_CONFIGURED), w_demo) /\
  fst (post_cleanup (mkEnv None None) None w_demo) <> Some (RError 401 AUTH_REQUIRED).
Proof. split; [reflexivity|]. vm_compute. discriminate. Qed.

(** The hypotheses of [post_session_ttl] hold of concrete settings: no
    setting, ["abc"], ["6"], ["10000000000"] (a valid number of hours, but
    beyond the [Date] range) and a run of 400 nines ([Infinity]). *)
Lemma post_session_ttl_witness :
  (SESSION_EXPIRY_HOURS (mkEnv None None) = None /\
   Z.abs (clock w_demo + 24 * 3600000) <= 8640000000000000 /\
   post_session (mkEnv None None) w_demo =
     (Some (RSession (random_uuid (next_oid w_demo)) (clock w_demo + 24 * 3600000)),
      bump_oid (set_sessions w_demo (sessions w_demo ++
        [mkSession (object_id (next_oid w_demo)) (random_uuid (next_oid w_demo))
           (clock w_demo + 24 * 3600000)])))) /\
  (SESSION_EXPIRY_HOURS (mkEnv (Some (js "abc")) None) = Some (js "abc") /\
   js "abc" <> [] /\ parseInt10 (js "abc") = None /\
   post_session (mkEnv (Some (js "abc")) None) w_demo
     = (Some (RError 500 SESSION_CREATE_FAILED), w_demo)) /\
  (SESSION_EXPIRY_HOURS (mkEnv (Some (js "6")) None) = Some (js "6") /\
   js "6" <> [] /\ parseInt10 (js "6") = Some (NFin 6) /\ 0 < 6 /\
   Z.abs (clock w_demo + 6 * 3600000) <= 8640000000000000 /\
   fst (post_session (mkEnv (Some (js "6")) None) w_demo) =
     Some (RSession (random_uuid (next_oid w_demo)) (clock w_demo + 6 * 3600000))) /\
  (parseInt10 (js "10000000000") = Some (NFin 10000000000) /\
   8640000000000000 < Z.abs (clock w_demo + 10000000000 * 3600000) /\
   post_session (mkEnv (Some (js "10000000000")) None) w_demo
     = (Some (RError 500 SESSION_CREATE_FAILED), w_demo)) /\
  (parseInt10 nines400 = Some (NInf false) /\
   post_session (mkEnv (Some nines400) None) w_demo
     = (Some (RError 500 SESSION_CREATE_FAILED), w_demo)).
Proof.
  split; [|split; [|split; [|split]]].
  - split; [reflexivity|]. split; [vm_compute; discriminate|].
    apply (proj1 (post_session_ttl (mkEnv None None) w_demo));
      [left; reflexivity|vm_compute; discriminate].
  - split; [reflexivity|]. split; [discriminate|]. split; [vm_compute; reflexivity|].
    apply (proj1 (proj2 (post_session_ttl (mkEnv (Some (js "abc")) None) w_demo))
             (js "abc")); [reflexivity|discriminate|left; vm_compute; reflexivity].
  - split; [reflexivity|]. split; [discriminate|]. split; [vm_compute; reflexivity|].
    split; [lia|]. split; [vm_compute; discriminate|].
    rewrite (proj1 (proj2 (proj2 (post_session_ttl (mkEnv (Some (js "6")) None) w_demo)))
             (js "6") 6); [reflexivity|reflexivity|discriminate|vm_compute; reflexivity|lia|
             vm_compute; discriminate].
  - split; [vm_compute; reflexivity|]. split; [vm_compute; reflexivity|].
    apply (proj2 (proj2 (proj2 (post_session_ttl (mkEnv (Some (js "10000000000")) None)
             w_demo))) (js "10000000000")); [reflexivity|discriminate|].
    right. exists 10000000000. split; [vm_compute; reflexivity|]. split; [lia|].
    vm_compute; reflexivity.
  - split; [vm_compute; reflexivity|].
    apply (proj2 (proj2 (proj2 (post_session_ttl (mkEnv (Some nines400) None) w_demo)))
             nines400); [reflexivity|discriminate|left; vm_compute; reflexivity].
Defined.

(** The hypotheses of [post_cleanup_auth] hold of concrete requests. *)
Lemma post_cleanup_auth_witness :
  (CLEANUP_SECRET (mkEnv None None) = None /\
   post_cleanup (mkEnv None None) (Some (js "Bearer x")) w_demo
     = (Some (RError 503 CLEANUP_NOT_CONFIGURED), w_demo)) /\
  (CLEANUP_SECRET (mkEnv None (Some (js "k"))) = Some (js "k") /\ js "k" <> [] /\
   starts_with (js "Basic k") (js "Bearer ") = false /\
   post_cleanup (mkEnv None (Some (js "k"))) (Some (js "Basic k")) w_demo
     = (Some (RError 401 AUTH_REQUIRED), w_demo)) /\
  (js "j" <> js "k" /\
   post_cleanup (mkEnv None (Some (js "k"))) (Some (js "Bearer " ++ js "j")) w_demo
     = (Some (RError 403 AUTH_FAILED), w_demo)) /\
  (post_cleanup (mkEnv None (Some (js "k"))) (Some (js "Bearer " ++ js "k")) w_demo =
     (Some (RCleanup (length (filter (expired_at (clock w_demo)) (sessions w_demo)))),
      snd (cleanupExpiredSessions Bulk w_demo))).
Proof.
  split; [|split; [|split]].
  - split; [reflexivity|].
    apply (proj1 (post_cleanup_auth (mkEnv None None) (Some (js "Bearer x")) w_demo)).
    left; reflexivity.
  - split; [reflexivity|]. split; [discriminate|]. split; [reflexivity|].
    apply (proj1 (proj2 (post_cleanup_auth (mkEnv None (Some (js "k")))
                           (Some (js "Basic k")) w_demo)) (js "k"));
      [reflexivity|discriminate|right; exists (js "Basic k"); split; reflexivity].
  - split; [discriminate|].
    apply (proj1 (proj2 (proj2 (post_cleanup_auth (mkEnv None (Some (js "k")))
                           (Some (js "Bearer " ++ js "j")) w_demo))) (js "k") (js "j"));
      [reflexivity|discriminate|reflexivity|discriminate].
  - apply (proj2 (proj2 (proj2 (post_cleanup_auth (mkEnv None (Some (js "k")))
                           (Some (js "Bearer " ++ js "k")) w_demo))) (js "k"));
      [reflexivity|discriminate|reflexivity].
Defined.

(** The hypotheses of [chat_message_length_rules] hold of concrete messages. *)
Lemma chat_message_length_rules_witness :
  (length (trim (repeat 97 400)) = 400%nat /\
   validate_chat_fields (JStr (repeat 97 400)) JUndefined JUndefined = inl MISSING_SESSION_ID /\
   MISSING_SESSION_ID <> MISSING_MESSAGE /\ MISSING_SESSION_ID <> EMPTY_MESSAGE /\
   MISSING_SESSION_ID <> MESSAGE_TOO_LONG) /\
  (length (trim (repeat 97 401)) = 401%nat /\
   validate_chat_fields (JStr (repeat 97 401)) (JStr tok_b) JUndefined = inl MESSAGE_TOO_LONG) /\
  ([32] <> [] /\ trim [32] = [] /\
   validate_chat_fields (JStr [32]) (JStr tok_b) JUndefined = inl EMPTY_MESSAGE).
Proof.
  split; [|split].
  - split; [vm_compute; reflexivity|]. split; [vm_compute; reflexivity|].
    apply (proj1 (chat_message_length_rules (repeat 97 400) JUndefined JUndefined));
      [vm_compute; reflexivity|vm_compute; reflexivity].
  - split; [vm_compute; reflexivity|].
    apply (proj1 (proj2 (chat_message_length_rules (repeat 97 401) (JStr tok_b) JUndefined)));
      vm_compute; reflexivity.
  - split; [discriminate|]. split; [reflexivity|].
    apply (proj1 (proj2 (proj2 (chat_message_length_rules [32] (JStr tok_b) JUndefined))));
      [discriminate|reflexivity].
Defined.

(** The hypothesis of [validateSession_spec] holds of a stored token. *)
Lemma validateSession_spec_witness :
  lookup_session (sessions w_demo) tok_a = Some (mkSession (object_id 0) tok_a 1000) /\
  (fst (validateSession tok_a w_demo) = Some InvalidExpired <-> clock w_demo > 1000).
Proof.
  split; [vm_compute; reflexivity|].
  apply (proj1 (proj2 (proj2 (validateSession_spec tok_a w_demo))
                 (mkSession (object_id 0) tok_a 1000) ltac:(vm_compute; reflexivity))).
Defined.

(** ** Ordering of stored messages and listed conversations *)

Lemma insert_by_createdAt_perm (m : message) (l : list message) :
  Permutation (insert_by_createdAt m l) (m :: l).
Proof.
  induction l as [|x l IH]; cbn [insert_by_createdAt]; [reflexivity|].
  destruct (m_createdAt m <? m_createdAt x); [reflexivity|].
  rewrite IH. apply perm_swap.
Qed.

Lemma fold_insert_createdAt_perm (l acc : list message) :
  Permutation (fold_left (fun acc m => insert_by_createdAt m acc) l acc) (acc ++ l).
Proof.
  revert acc; induction l as [|m l IH]; intros acc; cbn [fold_left].
  - rewrite app_nil_r; reflexivity.
  - rewrite IH, insert_by_createdAt_perm. cbn [app]. apply Permutation_middle.
Qed.

Lemma sort_by_createdAt_perm (l : list message) : Permutation (sort_by_createdAt l) l.
Proof. apply fold_insert_createdAt_perm. Qed.

(** A message no older than every message of [l] goes to the end. *)
Lemma insert_by_createdAt_last (m : message) (l : list message) :
  (forall x, In x l -> m_createdAt x <= m_createdAt m) ->
  insert_by_createdAt m l = l ++ [m].
Proof.
  induction l as [|x l IH]; cbn [insert_by_createdAt]; intros H; [reflexivity|].
  rewrite (proj2 (Z.ltb_ge _ _)) by (apply H; left; reflexivity).
  cbn. f_equal. apply IH. intros y Hy; apply H; right; auto.
Qed.

(** Appending two messages stamped with a time no earlier than the rest
    appends them to the sorted history, in the order they were written. *)
Lemma sort_by_createdAt_app2 (l : list message) (a b : message) (t : Z) :
  (forall x, In x l -> m_createdAt x <= t) -> m_createdAt a = t -> m_createdAt b = t ->
  sort_by_createdAt (l ++ [a; b]) = sort_by_createdAt l ++ [a; b].
Proof.
  intros Hl Ha Hb. unfold sort_by_createdAt. rewrite fold_left_app. cbn [fold_left].
  fold (sort_by_createdAt l).
  assert (Hs : forall x, In x (sort_by_createdAt l) -> m_createdAt x <= t).
  { intros x Hx. apply Hl. eapply Permutation_in; [apply sort_by_createdAt_perm|exact Hx]. }
  rewrite (insert_by_createdAt_last a) by (intros x Hx; rewrite Ha; auto).
  rewrite (insert_by_createdAt_last b).
  - rewrite <- app_assoc. reflexivity.
  - intros x Hx. apply in_app_or in Hx as [Hx|[<-|[]]]; [rewrite Hb; auto|lia].
Qed.

Lemma insert_by_updatedAt_perm (upd : conversation -> Z) (c : conversation)
  (l : list conversation) :
  Permutation (insert_by_updatedAt_desc upd c l) (c :: l).
Proof.
  induction l as [|x l IH]; cbn [insert_by_updatedAt_desc]; [reflexivity|].
  destruct (upd x <? upd c); [reflexivity|].
  rewrite IH. apply perm_swap.
Qed.

Lemma sort_by_updatedAt_perm (upd : conversation -> Z) (l : list conversation) :
  Permutation (sort_by_updatedAt_desc upd l) l.
Proof.
  unfold sort_by_updatedAt_desc.
  assert (G : forall acc, Permutation
            (fold_left (fun acc c => insert_by_updatedAt_desc upd c acc) l acc) (acc ++ l)).
  { induction l as [|c l IH]; intros acc; cbn [fold_left].
    - rewrite app_nil_r; reflexivity.
    - rewrite IH, insert_by_updatedAt_perm. cbn [app]. apply Permutation_middle. }
  apply G.
Qed.

(** ** Outcomes of the chat route *)

Lemma chat_turn_outcome (gen : model) (m sid : jsstr) (cid : option jsstr) (w : world) :
  let '(r, w') := chat_turn gen m sid cid w in
  (r = Some (RError 401 SESSION_INVALID) /\ w' = w) \/
  (r = Some (RError 404 CONVERSATION_NOT_FOUND) /\ w' = w) \/
  (exists reply convId, r = Some (RChat reply convId sid)) \/
  r = None.
Proof.
  unfold chat_turn, validateSession, getSessionById, session_findUnique, bind, ret,
    now, is_valid, conversation_findFirst, conversation_create, message_create,
    generateResponse; cbn.
  destruct (lookup_session (sessions w) sid) as [s|] eqn:Hs; cbn; [|auto].
  destruct (s_expiresAt s <? clock w); cbn; [auto|].
  rewrite Hs; cbn.
  destruct cid as [c|]; cbn.
  - destruct (find_owned (conversations w) c (s_id s)) as [conv|]; cbn; [|auto].
    destruct (gen _); cbn; eauto 10.
  - destruct (gen _); cbn; eauto 10.
Qed.

(** The chat route answers with 400 (a validation code), 401
    [SESSION_INVALID] or 404 ([SESSION_NOT_FOUND] or
    [CONVERSATION_NOT_FOUND]) only before it writes anything; its other
    answers are a reply or 500 [CHAT_ERROR].  (The 404 [SESSION_NOT_FOUND]
    branch needs the session to disappear between [validateSession] and
    [getSessionById], e.g. by a concurrent cleanup; it is kept as a
    possible answer.) *)
Theorem post_chat_outcomes (gen : model) (body : option jval) (w : world) :
  let '(r, w') := post_chat gen body w in
  (exists code, r = Some (RError 400 code) /\ w' = w) \/
  ((r = Some (RError 401 SESSION_INVALID) \/ r = Some (RError 404 SESSION_NOT_FOUND) \/
    r = Some (RError 404 CONVERSATION_NOT_FOUND)) /\ w' = w) \/
  (exists reply convId sid, r = Some (RChat reply convId sid)) \/
  r = Some (RError 500 CHAT_ERROR).
Proof.
  unfold post_chat, try_catch, chat_body.
  destruct body as [b|]; [|left; eexists; split; reflexivity].
  destruct (get_prop b (js "message")) as [mv|];
    [|right; right; right; reflexivity].
  destruct (get_prop b (js "sessionId")) as [sv|];
    [|right; right; right; reflexivity].
  destruct (get_prop b (js "conversationId")) as [cv|];
    [|right; right; right; reflexivity].
  destruct (validate_chat_fields mv sv cv) as [code|[[m sid] cid]].
  - left; eexists; split; reflexivity.
  - pose proof (chat_turn_outcome gen m sid cid w) as H.
    destruct (chat_turn gen m sid cid w) as [r w'].
    destruct H as [[-> ->]|[[-> ->]|[(reply & convId & ->) | ->]]].
    + right; left; split; auto.
    + right; left; split; auto.
    + right; right; left; eauto.
    + right; right; right; reflexivity.
Qed.

(** When the model call throws, the chat route answers 500 [CHAT_ERROR] but
    keeps what it wrote before the call: the user's message (and the
    conversation, when the turn opened one), with no assistant message. *)
Theorem post_chat_model_failure (gen : model) (fs : list (jsstr * jval)) (w : world)
  (m sid : jsstr) (cid : option jsstr) (s : session) (conv : conversation)
  (hist : list message) :
  validate_chat_fields (obj_get fs (js "message")) (obj_get fs (js "sessionId"))
    (obj_get fs (js "conversationId")) = inr (m, sid, cid) ->
  lookup_session (sessions w) sid = Some s -> clock w <= s_expiresAt s ->
  match cid with
  | Some c => find_owned (conversations w) c (s_id s) = Some conv /\
              hist = messages_of w (c_id conv)
  | None => conv = mkConversation (object_id (next_oid w)) (s_id s) (clock w) /\
            hist = []
  end ->
  gen (to_context hist ++ [(User, m)]) = None ->
  let '(r, w') := post_chat gen (Some (JObj fs)) w in
  r = Some (RError 500 CHAT_ERROR) /\
  conversations w' = conversations w ++ match cid with Some _ => [] | None => [conv] end /\
  (exists n, messages w' = messages w ++ [mkMessage (object_id n) (c_id conv) User m (clock w)]) /\
  model_calls w' = model_calls w ++ [to_context hist ++ [(User, m)]].
Proof.
  intros Hv Hs Hle Hc Hg.
  rewrite (post_chat_validated _ _ _ _ _ _ Hv).
  assert (Hlt : (s_expiresAt s <? clock w) = false) by (apply Z.ltb_ge; lia).
  unfold to_context in Hg.
  unfold try_catch, chat_turn, validateSession, getSessionById, session_findUnique, bind,
    ret, now, is_valid, conversation_findFirst, conversation_create, message_create,
    generateResponse; cbn.
  rewrite Hs; cbn. rewrite Hlt; cbn. rewrite Hs; cbn.
  destruct cid as [c|].
  - destruct Hc as [Hf ->]. rewrite Hf; cbn. rewrite Hg; cbn.
    repeat split.
    + rewrite app_nil_r; reflexivity.
    + exists (next_oid w); reflexivity.
  - destruct Hc as [-> ->]. cbn in Hg. cbn. rewrite Hg; cbn.
    repeat split. exists (S (next_oid w)); reflexivity.
Qed.

Lemma messages_of_append2 (w w' : world) (c : jsstr) (u a : message) :
  messages w' = messages w ++ [u; a] ->
  (forall x, In x (messages w) -> m_createdAt x <= m_createdAt u) ->
  m_createdAt a = m_createdAt u ->
  m_conversationId u = c -> m_conversationId a = c ->
  messages_of w' c = messages_of w c ++ [u; a].
Proof.
  intros Hm Ht Ha Hu Hac. unfold messages_of. rewrite Hm, filter_app.
  cbn [filter]. rewrite Hu, Hac, jsstr_eqb_refl.
  apply (sort_by_createdAt_app2 _ _ _ (m_createdAt u)); auto.
  intros x Hx. apply filter_In in Hx as [Hx _]. auto.
Qed.

(** Two successive replies on one conversation: the context sent to the model
    by the second turn is the context of the first, followed by the first
    reply and the new user message (provided stored messages are not newer
    than the first turn and no stored message already names the id the
    first turn may draw for a new conversation). *)
Theorem chat_second_turn_context (gen : model) (fs1 fs2 : list (jsstr * jval))
  (w w1 w2 : world) (t2 : Z) (m1 m2 sid1 sid2 r1 r2 convId sidr1 convId2 sidr2 : jsstr)
  (cid1 : option jsstr) :
  validate_chat_fields (obj_get fs1 (js "message")) (obj_get fs1 (js "sessionId"))
    (obj_get fs1 (js "conversationId")) = inr (m1, sid1, cid1) ->
  (forall x, In x (messages w) ->
     m_createdAt x <= clock w /\ m_conversationId x <> object_id (next_oid w)) ->
  post_chat gen (Some (JObj fs1)) w = (Some (RChat r1 convId sidr1), w1) ->
  validate_chat_fields (obj_get fs2 (js "message")) (obj_get fs2 (js "sessionId"))
    (obj_get fs2 (js "conversationId")) = inr (m2, sid2, Some convId) ->
  clock w <= t2 ->
  post_chat gen (Some (JObj fs2)) (set_clock w1 t2) = (Some (RChat r2 convId2 sidr2), w2) ->
  exists ctx1,
    model_calls w2 = model_calls w ++ [ctx1; ctx1 ++ [(Assistant, r1); (User, m2)]].
Proof.
  intros Hv1 Hw H1 Hv2 Ht H2.
  apply (post_chat_reply _ _ _ _ _ _ _ _ _ _ Hv1) in H1.
  apply (post_chat_reply _ _ _ _ _ _ _ _ _ _ Hv2) in H2.
  destruct (chat_turn_success _ _ _ _ _ _ _ _ _ H1)
    as (s & conv & hist & Hs & Hle & Hcase & Hg & Hconv & Hsid & Hcalls1 & n & Hmsgs1).
  destruct (chat_turn_success _ _ _ _ _ _ _ _ _ H2)
    as (s2 & conv2 & hist2 & Hs2 & Hle2 & Hcase2 & Hg2 & Hconv2 & Hsid2 & Hcalls2 & n2 & _).
  destruct Hcase2 as [Hf2 Hh2].
  apply find_owned_spec in Hf2 as (_ & Hid2 & _).
  assert (Hhist : hist = messages_of w convId).
  { destruct cid1 as [c|]; destruct Hcase as [Hc ->].
    - rewrite Hconv; reflexivity.
    - unfold messages_of. rewrite filter_none; [reflexivity|].
      intros x Hx. destruct (jsstr_eqb (m_conversationId x) convId) eqn:E; auto.
      apply jsstr_eqb_spec in E. exfalso. apply (proj2 (Hw x Hx)).
      rewrite E, Hconv, Hc. reflexivity. }
  assert (Hhist2 : hist2 = hist ++
            [mkMessage (object_id n) convId User m1 (clock w);
             mkMessage (object_id (S n)) convId Assistant r1 (clock w)]).
  { rewrite Hh2, Hid2, Hhist.
    apply (messages_of_append2 w); cbn [m_createdAt m_conversationId]; auto.
    - cbn. rewrite Hmsgs1, Hconv. reflexivity.
    - intros x Hx; apply Hw, Hx. }
  exists (to_context hist ++ [(User, m1)]).
  rewrite Hcalls2. cbn [model_calls set_clock]. rewrite Hcalls1, Hhist2.
  unfold to_context. rewrite map_app. cbn [map m_role m_content].
  rewrite <- !app_assoc. reflexivity.
Qed.

(** ** Session creation and lookup *)

Lemma getSessionExpiryHours_pos (e : env) (n : number) :
  getSessionExpiryHours e = Some n -> number_le_0 n = false.
Proof.
  unfold getSessionExpiryHours.
  destruct (SESSION_EXPIRY_HOURS e) as [[|u v]|]; try (intros H; inversion H; reflexivity).
  destruct (parseInt10 (u :: v)) as [x|]; [|discriminate].
  destruct (number_le_0 x) eqn:E; [discriminate|]. intros H; inversion H; subst; exact E.
Qed.

Lemma post_session_eq (e : env) (w : world) (h : Z) :
  getSessionExpiryHours e = Some (NFin h) ->
  Z.abs (clock w + h * 3600000) <= 8640000000000000 ->
  post_session e w =
    (Some (RSession (random_uuid (next_oid w)) (clock w + h * 3600000)),
     bump_oid (set_sessions w (sessions w ++
       [mkSession (object_id (next_oid w)) (random_uuid (next_oid w))
          (clock w + h * 3600000)]))).
Proof.
  intros H Hr. unfold post_session, createSession, calculateExpiryDate, try_catch.
  rewrite H. unfold bind, now, ret, generateSessionId, add_hours, time_clip; cbn [fst snd].
  rewrite (proj2 (Z.leb_le _ _) Hr). reflexivity.
Qed.

(** A successful [POST /session] stores exactly one new session, with the
    returned token and expiry, and that expiry lies strictly after the
    current time; nothing else is written. *)
Theorem post_session_creates (e : env) (w w' : world) (tok : jsstr) (exp : Z) :
  post_session e w = (Some (RSession tok exp), w') ->
  clock w < exp /\
  sessions w' = sessions w ++ [mkSession (object_id (next_oid w)) tok exp] /\
  conversations w' = conversations w /\ messages w' = messages w /\
  model_calls w' = model_calls w.
Proof.
  destruct (getSessionExpiryHours e) as [n|] eqn:Eh.
  - pose proof (getSessionExpiryHours_pos _ _ Eh) as Hpos.
    destruct n as [h|neg]; cbn [number_le_0] in Hpos.
    + apply Z.leb_gt in Hpos.
      destruct (Z.abs (clock w + h * 3600000) <=? 8640000000000000) eqn:Er.
      * apply Z.leb_le in Er. rewrite (post_session_eq _ _ _ Eh Er).
        intros H; inversion H; subst. repeat split; cbn; lia.
      * unfold post_session, createSession, calculateExpiryDate, try_catch.
        rewrite Eh. unfold bind, now, ret, generateSessionId, add_hours, time_clip;
          cbn [fst snd]. rewrite Er. cbn. discriminate.
    + unfold post_session, createSession, calculateExpiryDate, try_catch.
      rewrite Eh. cbn. discriminate.
  - unfold post_session, createSession, calculateExpiryDate, try_catch.
    rewrite Eh. cbn. discriminate.
Qed.

Lemma lookup_session_app_fresh (ss : list session) (s : session) :
  (forall s', In s' ss -> s_sessionId s' <> s_sessionId s) ->
  lookup_session (ss ++ [s]) (s_sessionId s) = Some s.
Proof.
  induction ss as [|x ss IH]; intros H; unfold lookup_session in *; cbn.
  - rewrite jsstr_eqb_refl; reflexivity.
  - destruct (jsstr_eqb (s_sessionId x) (s_sessionId s)) eqn:E.
    + apply jsstr_eqb_spec in E. exfalso; apply (H x); auto. left; reflexivity.
    + apply IH. intros s' Hs'; apply H; right; auto.
Qed.

(** A token just issued by [POST /session] (with a TTL of [h] hours for
    which the expiry is a valid [Date]) is reported valid by
    [GET /session/:sessionId], with the same expiry, at any time up to and
    including that expiry, and expired afterwards (provided the drawn token
    is not already stored). *)
Theorem session_round_trip (e : env) (w : world) (h t : Z) :
  getSessionExpiryHours e = Some (NFin h) ->
  Z.abs (clock w + h * 3600000) <= 8640000000000000 ->
  (forall s, In s (sessions w) -> s_sessionId s <> random_uuid (next_oid w)) ->
  exists w1,
    post_session e w =
      (Some (RSession (random_uuid (next_oid w)) (clock w + h * 3600000)), w1) /\
    get_session (random_uuid (next_oid w)) (set_clock w1 t) =
      (Some (if t <=? clock w + h * 3600000
             then SCValid (random_uuid (next_oid w)) (clock w + h * 3600000)
             else SCInvalid MsgExpired),
       set_clock w1 t).
Proof.
  intros Hh Hr Hfresh. eexists; split; [apply (post_session_eq _ _ _ Hh Hr)|].
  unfold get_session, try_catch, validateSession, session_findUnique, bind, ret, now.
  cbn [sessions set_clock bump_oid set_sessions clock].
  pose proof (lookup_session_app_fresh (sessions w)
             (mkSession (object_id (next_oid w)) (random_uuid (next_oid w))
                (clock w + h * 3600000)) Hfresh) as Hl.
  cbn [s_sessionId] in Hl. rewrite Hl.
  cbn [s_expiresAt s_sessionId clock set_clock bump_oid set_sessions].
  destruct (t <=? clock w + h * 3600000) eqn:E.
  - apply Z.leb_le in E. rewrite (proj2 (Z.ltb_ge _ _) E). reflexivity.
  - apply Z.leb_gt in E. rewrite (proj2 (Z.ltb_lt _ _) E). reflexivity.
Qed.

Lemma lookup_session_some (ss : list session) (tok : jsstr) (s : session) :
  lookup_session ss tok = Some s -> In s ss /\ s_sessionId s = tok.
Proof.
  unfold lookup_session; intros H.
  destruct (find_some _ _ H) as [Hin E]. apply jsstr_eqb_spec in E; auto.
Qed.

Lemma lookup_session_unique (ss : list session) (s : session) :
  NoDup (map s_sessionId ss) -> In s ss -> lookup_session ss (s_sessionId s) = Some s.
Proof.
  intros Hnd Hin.
  destruct (lookup_session ss (s_sessionId s)) as [s'|] eqn:E.
  - destruct (lookup_session_some _ _ _ E) as [Hin' Hid].
    f_equal. apply (nodup_map_inj s_sessionId ss); auto.
  - apply lookup_session_None with (s := s) in E; [|exact Hin]. congruence.
Qed.

(** [GET /session/:sessionId] never writes: with
    unique tokens, an unknown token gives 400 not-found, and a stored one
    gives 200 echoing the token and its expiry while [now <= expiresAt],
    400 expired afterwards. *)
Theorem get_session_spec (tok : jsstr) (w : world) :
  NoDup (map s_sessionId (sessions w)) ->
  snd (get_session tok w) = w /\
  ((forall s, In s (sessions w) -> s_sessionId s <> tok) ->
   fst (get_session tok w) = Some (SCInvalid MsgNotFound)) /\
  (forall s, In s (sessions w) -> s_sessionId s = tok ->
   fst (get_session tok w) =
     Some (if clock w <=? s_expiresAt s then SCValid tok (s_expiresAt s)
           else SCInvalid MsgExpired)).
Proof.
  intros Hnd.
  unfold get_session, try_catch, validateSession, session_findUnique, bind, ret, now.
  split; [|split].
  - destruct (lookup_session (sessions w) tok) as [s|]; [|reflexivity].
    destruct (s_expiresAt s <? clock w); reflexivity.
  - intros Hnone. apply lookup_session_None in Hnone. rewrite Hnone. reflexivity.
  - intros s Hin <-. rewrite (lookup_session_unique _ _ Hnd Hin).
    destruct (clock w <=? s_expiresAt s) eqn:C.
    + apply Z.leb_le in C. rewrite (proj2 (Z.ltb_ge _ _) C). reflexivity.
    + apply Z.leb_gt in C. rewrite (proj2 (Z.ltb_lt _ _) C). reflexivity.
Qed.

(** ** Cleanup against validation *)

Lemma cleanup_sessions (impl : cleanup_impl) (w : world) :
  NoDup (map s_id (sessions w)) ->
  sessions (snd (cleanupExpiredSessions impl w)) =
    filter (fun s => negb (expired_at (clock w) s)) (sessions w) /\
  clock (snd (cleanupExpiredSessions impl w)) = clock w.
Proof.
  intros Hnd. rewrite (cleanup_impl_eq _ _ Hnd). cbn [snd].
  unfold cleanup_result, cascade_children. split; reflexivity.
Qed.

Lemma validateSession_eq (tok : jsstr) (w : world) :
  fst (validateSession tok w) =
    Some (match lookup_session (sessions w) tok with
          | None => InvalidNotFound
          | Some s => if s_expiresAt s <? clock w then InvalidExpired else Valid s
          end).
Proof.
  unfold validateSession, session_findUnique, bind, ret, now.
  destruct (lookup_session (sessions w) tok) as [s|]; [|reflexivity].
  destruct (s_expiresAt s <? clock w); reflexivity.
Qed.

(** With unique ids and tokens, a session survives a cleanup run exactly
    when [validateSession] reports it valid at the time of the run, for
    both cleanup implementations. *)
Theorem cleanup_keeps_exactly_valid (impl : cleanup_impl) (w : world) (s : session) :
  NoDup (map s_id (sessions w)) -> NoDup (map s_sessionId (sessions w)) ->
  In s (sessions w) ->
  (In s (sessions (snd (cleanupExpiredSessions impl w))) <->
   fst (validateSession (s_sessionId s) w) = Some (Valid s)).
Proof.
  intros Hnd Hnd' Hin. rewrite (proj1 (cleanup_sessions _ _ Hnd)), filter_In.
  rewrite validateSession_eq, (lookup_session_unique _ _ Hnd' Hin). unfold expired_at.
  destruct (s_expiresAt s <? clock w); cbn; split.
  - intros [_ H]; discriminate.
  - discriminate.
  - reflexivity.
  - intros _; auto.
Qed.

(** After a cleanup run, with nothing written in between, a token that
    [validateSession] reports expired at a later time [t] belongs to a
    session whose expiry lies between the cleanup's time and [t]: every
    session already expired at the cleanup is gone (for both cleanup
    implementations). *)
Theorem cleanup_expired_later (impl : cleanup_impl) (w : world) (tok : jsstr) (t : Z) :
  NoDup (map s_id (sessions w)) ->
  fst (validateSession tok (set_clock (snd (cleanupExpiredSessions impl w)) t))
    = Some InvalidExpired ->
  exists s, In s (sessions w) /\ s_sessionId s = tok /\ clock w <= s_expiresAt s < t.
Proof.
  intros Hnd. destruct (cleanup_sessions impl w Hnd) as [Hs _].
  rewrite validateSession_eq. cbn [sessions clock set_clock]. rewrite Hs.
  destruct (lookup_session _ tok) as [s|] eqn:E; [|discriminate].
  apply lookup_session_some in E as [Hin Htok].
  apply filter_In in Hin as [Hin Hk]. unfold expired_at in Hk.
  destruct (s_expiresAt s <? t) eqn:Et; [|discriminate]. intros _.
  exists s. split; [exact Hin|]. split; [exact Htok|].
  apply Z.ltb_lt in Et. destruct (s_expiresAt s <? clock w) eqn:Ec; [discriminate|].
  apply Z.ltb_ge in Ec. lia.
Qed.

(** ** Listing conversations *)

Lemma get_conversations_eq (upd : conversation -> Z) (sid : jsstr) (w : world) :
  isValidUUID sid = true ->
  get_conversations upd (Some sid) w =
    (Some (match lookup_session (sessions w) sid with
           | None => CVError 401 SESSION_INVALID
           | Some s =>
               if s_expiresAt s <? clock w then CVError 401 SESSION_INVALID else
               CVList (map (fun c => to_view upd
                              (c, firstn MAX_MESSAGES_PER_CONVERSATION (messages_of w (c_id c))))
                         (sort_by_updatedAt_desc upd (filter (owned_by (s_id s)) (conversations w))))
           end), w).
Proof.
  intros Hu. destruct sid as [|u r]; [discriminate|].
  unfold get_conversations, try_catch, validateSession, getSessionById, session_findUnique,
    conversation_findMany, bind, ret, now, is_valid, owned_by.
  rewrite Hu. cbn [negb].
  destruct (lookup_session (sessions w) (u :: r)) as [s|] eqn:E; [|reflexivity].
  destruct (s_expiresAt s <? clock w); [reflexivity|].
  cbn. rewrite E. rewrite map_map. reflexivity.
Qed.

(** [GET /conversations] never writes; a missing or empty [sessionId]
    gives 400 [MISSING_SESSION_ID], a malformed one 400
    [INVALID_SESSION_ID_FORMAT], an unknown or expired one 401
    [SESSION_INVALID]. *)
Theorem get_conversations_errors (upd : conversation -> Z) (q : option jsstr) (w : world) :
  snd (get_conversations upd q w) = w /\
  (q = None \/ q = Some [] -> fst (get_conversations upd q w) = Some (CVError 400 MISSING_SESSION_ID)) /\
  (forall sid, q = Some sid -> sid <> [] -> isValidUUID sid = false ->
     fst (get_conversations upd q w) = Some (CVError 400 INVALID_SESSION_ID_FORMAT)) /\
  (forall sid, q = Some sid -> isValidUUID sid = true ->
     (forall s, lookup_session (sessions w) sid = Some s -> s_expiresAt s < clock w) ->
     fst (get_conversations upd q w) = Some (CVError 401 SESSION_INVALID)).
Proof.
  assert (Hform : get_conversations upd q w =
    (Some (match q with
           | None | Some [] => CVError 400 MISSING_SESSION_ID
           | Some sid =>
               if negb (isValidUUID sid) then CVError 400 INVALID_SESSION_ID_FORMAT else
               match lookup_session (sessions w) sid with
               | None => CVError 401 SESSION_INVALID
               | Some s =>
                   if s_expiresAt s <? clock w then CVError 401 SESSION_INVALID else
                   CVList (map (fun c => to_view upd
                             (c, firstn MAX_MESSAGES_PER_CONVERSATION (messages_of w (c_id c))))
                         (sort_by_updatedAt_desc upd (filter (owned_by (s_id s)) (conversations w))))
               end
           end), w)).
  { destruct q as [[|u r]|]; try reflexivity.
    destruct (isValidUUID (u :: r)) eqn:Hu.
    - rewrite (get_conversations_eq _ _ _ Hu). reflexivity.
    - unfold get_conversations, try_catch, ret. rewrite Hu. reflexivity. }
  rewrite Hform; cbn [fst snd].
  split; [reflexivity|]. split; [intros [-> | ->]; reflexivity|]. split.
  { intros sid -> Hne Hu. destruct sid; [congruence|]. rewrite Hu; reflexivity. }
  intros sid -> Hu Hexp. destruct sid; [discriminate|]. rewrite Hu. cbn [negb].
  destruct (lookup_session (sessions w) _) as [s|] eqn:E; [|reflexivity].
  rewrite (proj2 (Z.ltb_lt _ _) (Hexp _ eq_refl)). reflexivity.
Qed.

(** For a valid session, [GET /conversations] lists exactly the
    conversations the session owns, each with its dates and the first 100
    messages of its chronological history. *)
Theorem get_conversations_lists_own (upd : conversation -> Z) (sid : jsstr) (w : world)
  (s : session) :
  isValidUUID sid = true -> lookup_session (sessions w) sid = Some s ->
  clock w <= s_expiresAt s ->
  exists vs,
    get_conversations upd (Some sid) w = (Some (CVList vs), w) /\
    Permutation (map v_id vs) (map c_id (filter (owned_by (s_id s)) (conversations w))) /\
    (forall v, In v vs -> exists c,
       In c (conversations w) /\ c_sessionId c = s_id s /\
       v_id v = c_id c /\ v_createdAt v = c_createdAt c /\ v_updatedAt v = upd c /\
       v_messages v = map message_view (firstn 100 (messages_of w (c_id c)))).
Proof.
  intros Hu Hs Hle. rewrite (get_conversations_eq _ _ _ Hu), Hs.
  rewrite (proj2 (Z.ltb_ge _ _) Hle).
  eexists; split; [reflexivity|]. split.
  - rewrite map_map. cbn. apply Permutation_map, sort_by_updatedAt_perm.
  - intros v Hv. apply in_map_iff in Hv as (c & <- & Hc).
    apply (Permutation_in _ (sort_by_updatedAt_perm upd _)) in Hc.
    apply filter_In in Hc as [Hc Ho]. unfold owned_by in Ho.
    apply jsstr_eqb_spec in Ho.
    exists c. repeat split; auto.
Qed.

Lemma to_view_messages (upd : conversation -> Z) (c : conversation) (ms : list message) :
  v_messages (to_view upd (c, ms)) = map message_view ms.
Proof. reflexivity. Qed.

(** ** Chat turns seen through the listing *)

Lemma validate_chat_fields_uuid (mv sv cv : jval) (m sid : jsstr) (cid : option jsstr) :
  validate_chat_fields mv sv cv = inr (m, sid, cid) -> isValidUUID sid = true.
Proof.
  unfold validate_chat_fields.
  destruct mv; try discriminate.
  destruct (negb (truthy (JStr s))); try discriminate.
  destruct (Nat.eqb _ 0); try discriminate.
  destruct (Nat.ltb _ _); try discriminate.
  destruct sv; try discriminate.
  destruct (negb (truthy (JStr s0))); try discriminate.
  destruct (isValidUUID s0) eqn:Hu; cbn [negb]; try discriminate.
  destruct cv; try discriminate;
    try (destruct (negb (isValidObjectId s1)); try discriminate);
    intros H; inversion H; subst; auto.
Qed.

(** What a reply-producing turn that opens a conversation writes besides
    the messages. *)
Lemma chat_turn_new_store (gen : model) (m sid : jsstr) (w w' : world)
  (reply convId sid' : jsstr) :
  chat_turn gen m sid None w = (Some (RChat reply convId sid'), w') ->
  sessions w' = sessions w /\ clock w' = clock w /\
  exists s, lookup_session (sessions w) sid = Some s /\
    conversations w' =
      conversations w ++ [mkConversation (object_id (next_oid w)) (s_id s) (clock w)].
Proof.
  intros H.
  unfold chat_turn, validateSession, getSessionById, session_findUnique, bind, ret,
    now, is_valid, conversation_create, message_create, generateResponse in H; cbn in H.
  destruct (lookup_session (sessions w) sid) as [s|] eqn:Hs; [|inversion H].
  destruct (s_expiresAt s <? clock w) eqn:Hlt; cbn in H; [inversion H|].
  rewrite Hs in H; cbn in H.
  destruct (gen _) as [t|]; cbn in H; [|inversion H].
  inversion H; subst; clear H. cbn. repeat split. exists s; split; auto.
Qed.

(** After a turn that opens a conversation, listing the session's
    conversations shows it under the returned id with exactly the two
    messages of the turn, the user's first. *)
Theorem chat_new_conversation_listed (upd : conversation -> Z) (gen : model)
  (fs : list (jsstr * jval)) (w w1 : world) (m sid r convId sid' : jsstr) :
  validate_chat_fields (obj_get fs (js "message")) (obj_get fs (js "sessionId"))
    (obj_get fs (js "conversationId")) = inr (m, sid, None) ->
  (forall x, In x (messages w) -> m_conversationId x <> object_id (next_oid w)) ->
  post_chat gen (Some (JObj fs)) w = (Some (RChat r convId sid'), w1) ->
  exists vs v,
    get_conversations upd (Some sid) w1 = (Some (CVList vs), w1) /\
    In v vs /\ v_id v = convId /\
    v_messages v = [(User, m, clock w); (Assistant, r, clock w)].
Proof.
  intros Hv Hfresh H.
  pose proof (validate_chat_fields_uuid _ _ _ _ _ _ Hv) as Hu.
  apply (post_chat_reply _ _ _ _ _ _ _ _ _ _ Hv) in H.
  destruct (chat_turn_new_store _ _ _ _ _ _ _ _ H) as (Hss & Hclk & s0 & Hs0 & Hconvs).
  destruct (chat_turn_success _ _ _ _ _ _ _ _ _ H)
    as (s & conv & hist & Hs & Hle & [Hc Hh] & Hg & Hconv & Hsid & Hcalls & n & Hmsgs).
  rewrite Hs in Hs0. injection Hs0 as <-.
  rewrite (get_conversations_eq _ _ _ Hu), Hss, Hs, Hclk.
  rewrite (proj2 (Z.ltb_ge _ _) Hle).
  eexists. exists (to_view upd (conv, firstn MAX_MESSAGES_PER_CONVERSATION
                                   (messages_of w1 (c_id conv)))).
  split; [reflexivity|]. split; [|split].
  - apply in_map with (f := fun c => to_view upd
              (c, firstn MAX_MESSAGES_PER_CONVERSATION (messages_of w1 (c_id c)))).
    apply (Permutation_in _ (Permutation_sym (sort_by_updatedAt_perm upd _))).
    apply filter_In. rewrite Hconvs. split.
    + apply in_or_app; right; left; symmetry; exact Hc.
    + unfold owned_by. rewrite Hc. apply jsstr_eqb_refl.
  - rewrite Hconv; reflexivity.
  - assert (Hm : messages_of w1 (c_id conv) =
              [mkMessage (object_id n) (c_id conv) User m (clock w);
               mkMessage (object_id (S n)) (c_id conv) Assistant r (clock w)]).
    { unfold messages_of. rewrite Hmsgs, filter_app.
      rewrite filter_none.
      - cbn [filter m_conversationId app]. rewrite jsstr_eqb_refl.
        apply (sort_by_createdAt_app2 [] _ _ (clock w)); cbn; auto. intros x [].
      - intros x Hx. destruct (jsstr_eqb (m_conversationId x) (c_id conv)) eqn:E; auto.
        apply jsstr_eqb_spec in E. exfalso; apply (Hfresh x Hx).
        rewrite E, Hc. reflexivity. }
    rewrite to_view_messages, Hm. reflexivity.
Qed.

(** ** Reading [SESSION_EXPIRY_HOURS] *)

Lemma drop_ws_app (pre s : jsstr) :
  (forall u, In u pre -> is_js_ws u = true) -> drop_ws (pre ++ s) = drop_ws s.
Proof.
  induction pre as [|u pre IH]; intros H; [reflexivity|].
  cbn [app drop_ws]. rewrite H by (left; reflexivity). apply IH.
  intros x Hx; apply H; right; exact Hx.
Qed.

Lemma digit_not_ws (d : Z) : 0 <= d <= 9 -> is_js_ws (48 + d) = false.
Proof.
  intros Hd.
  assert (d = 0 \/ d = 1 \/ d = 2 \/ d = 3 \/ d = 4 \/ d = 5 \/ d = 6 \/ d = 7 \/
          d = 8 \/ d = 9) as Hc by lia.
  repeat destruct Hc as [->|Hc]; try reflexivity. subst; reflexivity.
Qed.

Lemma take_digits_digits (ds rest : jsstr) :
  (forall d, In d ds -> 0 <= d <= 9) ->
  (forall u r, rest = u :: r -> u < 48 \/ 57 < u) ->
  take_digits (map (Z.add 48) ds ++ rest) = ds.
Proof.
  intros Hds Hr. induction ds as [|d ds IH]; cbn [map app].
  - destruct rest as [|u r]; [reflexivity|]. cbn.
    destruct (Hr u r eq_refl) as [H|H].
    + rewrite (proj2 (Z.leb_gt 48 u) H). reflexivity.
    + rewrite (proj2 (Z.leb_gt u 57) H), andb_false_r. reflexivity.
  - cbn [take_digits]. assert (0 <= d <= 9) as Hd by (apply Hds; left; reflexivity).
    rewrite (proj2 (Z.leb_le 48 (48 + d))) by lia.
    rewrite (proj2 (Z.leb_le (48 + d) 57)) by lia. cbn [andb].
    rewrite IH by (intros x Hx; apply Hds; right; exact Hx).
    f_equal; lia.
Qed.

Lemma digits_value_nonneg (ds : jsstr) :
  (forall d, In d ds -> 0 <= d <= 9) -> 0 <= digits_value ds.
Proof.
  unfold digits_value. intros H.
  assert (G : forall a, 0 <= a -> 0 <= fold_left (fun a d => a * 10 + d) ds a).
  { induction ds as [|d ds IH]; intros a Ha; cbn [fold_left]; auto.
    apply IH; [intros x Hx; apply H; right; auto|].
    assert (0 <= d <= 9) by (apply H; left; reflexivity). lia. }
  apply G; lia.
Qed.

Lemma parseInt10_unsigned (v : jsstr) (u : Z) (r : jsstr) :
  drop_ws v = u :: r -> u <> 45 -> u <> 43 ->
  parseInt10 v = match take_digits (u :: r) with
                 | [] => None
                 | ds => Some (number_of_Z (1 * digits_value ds))
                 end.
Proof.
  intros Hd H45 H43. unfold parseInt10. rewrite Hd.
  destruct u as [|p|p]; try reflexivity.
  repeat (destruct p as [p|p|]; try reflexivity); congruence.
Qed.

Lemma round_double_small (m : Z) :
  0 <= m < 2 ^ 53 -> round_double_nonneg m = NFin m.
Proof.
  intros Hm. unfold round_double_nonneg.
  destruct (Z.eq_dec m 0) as [->|Hne]; [reflexivity|].
  assert (Z.log2 m < 53) as Hl by (apply Z.log2_lt_pow2; lia).
  rewrite (proj2 (Z.leb_le _ 52)) by lia. reflexivity.
Qed.

(** [SESSION_EXPIRY_HOURS] made of white space, decimal digits, then
    anything not starting with a digit is read as the number the digits
    spell, as long as that number is below 2^53 (where every integer is a
    double): a positive value is used as is, zero is an error. *)
Theorem getSessionExpiryHours_digits (pre ds rest : jsstr) (cs : option jsstr) :
  (forall u, In u pre -> is_js_ws u = true) ->
  ds <> [] -> (forall d, In d ds -> 0 <= d <= 9) ->
  (forall u r, rest = u :: r -> u < 48 \/ 57 < u) ->
  digits_value ds < 2 ^ 53 ->
  getSessionExpiryHours (mkEnv (Some (pre ++ map (Z.add 48) ds ++ rest)) cs) =
    if digits_value ds =? 0 then None else Some (NFin (digits_value ds)).
Proof.
  intros Hpre Hne Hds Hr Hsmall.
  destruct ds as [|d0 ds']; [congruence|].
  assert (0 <= d0 <= 9) as Hd0 by (apply Hds; left; reflexivity).
  assert (Hdrop : drop_ws (pre ++ map (Z.add 48) (d0 :: ds') ++ rest)
                  = (48 + d0) :: (map (Z.add 48) ds' ++ rest)).
  { rewrite drop_ws_app by exact Hpre. cbn [map app drop_ws].
    rewrite digit_not_ws by exact Hd0. reflexivity. }
  pose proof (digits_value_nonneg _ Hds) as Hnn.
  unfold getSessionExpiryHours. cbn [SESSION_EXPIRY_HOURS].
  destruct (pre ++ map (Z.add 48) (d0 :: ds') ++ rest) as [|x y] eqn:Ev.
  { destruct pre; discriminate. }
  rewrite (parseInt10_unsigned _ _ _ Hdrop) by lia.
  change ((48 + d0) :: map (Z.add 48) ds' ++ rest) with (map (Z.add 48) (d0 :: ds') ++ rest).
  rewrite take_digits_digits by assumption.
  rewrite Z.mul_1_l. unfold number_of_Z.
  rewrite (proj2 (Z.ltb_ge _ 0)) by lia. rewrite round_double_small by lia.
  cbn [number_le_0].
  destruct (digits_value (d0 :: ds') =? 0) eqn:E.
  - apply Z.eqb_eq in E. rewrite E. reflexivity.
  - apply Z.eqb_neq in E. rewrite (proj2 (Z.leb_gt _ 0)) by lia. reflexivity.
Qed.

(** ** Instances of the properties above on concrete worlds *)

Lemma post_chat_model_failure_witness :
  validate_chat_fields (obj_get turn1_req (js "message")) (obj_get turn1_req (js "sessionId"))
    (obj_get turn1_req (js "conversationId")) = inr (js "x", tok_b, None) /\
  lookup_session (sessions w_demo) tok_b = Some session_b /\
  clock w_demo <= s_expiresAt session_b /\
  let '(r, w') := post_chat failing_model (Some (JObj turn1_req)) w_demo in
  r = Some (RError 500 CHAT_ERROR) /\
  conversations w' = conversations w_demo ++ [mkConversation (object_id 10) (object_id 1) 2000] /\
  (exists n, messages w' = messages w_demo ++
     [mkMessage (object_id n) (c_id (mkConversation (object_id 10) (object_id 1) 2000))
        User (js "x") (clock w_demo)]) /\
  model_calls w' = model_calls w_demo ++ [to_context [] ++ [(User, js "x")]].
Proof.
  split; [vm_compute; reflexivity|]. split; [vm_compute; reflexivity|].
  split; [vm_compute; discriminate|].
  apply (post_chat_model_failure failing_model turn1_req w_demo (js "x") tok_b None
           session_b (mkConversation (object_id 10) (object_id 1) 2000) []).
  - vm_compute; reflexivity.
  - vm_compute; reflexivity.
  - vm_compute; discriminate.
  - split; reflexivity.
  - reflexivity.
Defined.

Lemma chat_second_turn_context_witness :
  (forall x, In x (messages w_demo) ->
     m_createdAt x <= clock w_demo /\ m_conversationId x <> object_id (next_oid w_demo)) /\
  post_chat echo_model (Some (JObj turn1_req)) w_demo
    = (Some (RChat (js "ok") (object_id 10) tok_b),
       snd (post_chat echo_model (Some (JObj turn1_req)) w_demo)) /\
  post_chat echo_model (Some (JObj turn2_req))
      (set_clock (snd (post_chat echo_model (Some (JObj turn1_req)) w_demo)) 2500)
    = (Some (RChat (js "ok") (object_id 10) tok_b),
       snd (post_chat echo_model (Some (JObj turn2_req))
              (set_clock (snd (post_chat echo_model (Some (JObj turn1_req)) w_demo)) 2500))) /\
  exists ctx1,
    model_calls (snd (post_chat echo_model (Some (JObj turn2_req))
                   (set_clock (snd (post_chat echo_model (Some (JObj turn1_req)) w_demo)) 2500)))
    = model_calls w_demo ++ [ctx1; ctx1 ++ [(Assistant, js "ok"); (User, js "y")]].
Proof.
  assert (Hw : forall x, In x (messages w_demo) ->
     m_createdAt x <= clock w_demo /\ m_conversationId x <> object_id (next_oid w_demo)).
  { intros x Hx. cbn [messages w_demo In] in Hx.
    repeat destruct Hx as [<-|Hx]; try contradiction;
      (split; [vm_compute; discriminate|vm_compute; discriminate]). }
  assert (H1 : post_chat echo_model (Some (JObj turn1_req)) w_demo
    = (Some (RChat (js "ok") (object_id 10) tok_b),
       snd (post_chat echo_model (Some (JObj turn1_req)) w_demo)))
    by (vm_compute; reflexivity).
  assert (H2 : post_chat echo_model (Some (JObj turn2_req))
      (set_clock (snd (post_chat echo_model (Some (JObj turn1_req)) w_demo)) 2500)
    = (Some (RChat (js "ok") (object_id 10) tok_b),
       snd (post_chat echo_model (Some (JObj turn2_req))
              (set_clock (snd (post_chat echo_model (Some (JObj turn1_req)) w_demo)) 2500))))
    by (vm_compute; reflexivity).
  split; [exact Hw|]. split; [exact H1|]. split; [exact H2|].
  apply (chat_second_turn_context echo_model turn1_req turn2_req w_demo
           (snd (post_chat echo_model (Some (JObj turn1_req)) w_demo))
           (snd (post_chat echo_model (Some (JObj turn2_req))
              (set_clock (snd (post_chat echo_model (Some (JObj turn1_req)) w_demo)) 2500)))
           2500
           (js "x") (js "y") tok_b tok_b (js "ok") (js "ok") (object_id 10) tok_b
           (object_id 10) tok_b None); try assumption.
  - vm_compute; reflexivity.
  - vm_compute; reflexivity.
  - vm_compute; discriminate.
Defined.

Lemma chat_new_conversation_listed_witness :
  (forall x, In x (messages w_demo) -> m_conversationId x <> object_id (next_oid w_demo)) /\
  post_chat echo_model (Some (JObj turn1_req)) w_demo
    = (Some (RChat (js "ok") (object_id 10) tok_b),
       snd (post_chat echo_model (Some (JObj turn1_req)) w_demo)) /\
  exists vs v,
    get_conversations c_createdAt (Some tok_b)
      (snd (post_chat echo_model (Some (JObj turn1_req)) w_demo))
      = (Some (CVList vs), snd (post_chat echo_model (Some (JObj turn1_req)) w_demo)) /\
    In v vs /\ v_id v = object_id 10 /\
    v_messages v = [(User, js "x", clock w_demo); (Assistant, js "ok", clock w_demo)].
Proof.
  assert (Hw : forall x, In x (messages w_demo) ->
            m_conversationId x <> object_id (next_oid w_demo)).
  { intros x Hx. cbn [messages w_demo In] in Hx.
    repeat destruct Hx as [<-|Hx]; try contradiction; vm_compute; discriminate. }
  assert (H1 : post_chat echo_model (Some (JObj turn1_req)) w_demo
    = (Some (RChat (js "ok") (object_id 10) tok_b),
       snd (post_chat echo_model (Some (JObj turn1_req)) w_demo)))
    by (vm_compute; reflexivity).
  split; [exact Hw|]. split; [exact H1|].
  apply (chat_new_conversation_listed c_createdAt echo_model turn1_req w_demo
           (snd (post_chat echo_model (Some (JObj turn1_req)) w_demo))
           (js "x") tok_b (js "ok") (object_id 10) tok_b); try assumption.
  vm_compute; reflexivity.
Defined.

Lemma post_session_creates_witness :
  post_session (mkEnv None None) w_demo =
    (Some (RSession (random_uuid 10) 86402000),
     snd (post_session (mkEnv None None) w_demo)) /\
  clock w_demo < 86402000 /\
  sessions (snd (post_session (mkEnv None None) w_demo)) =
    sessions w_demo ++ [mkSession (object_id (next_oid w_demo)) (random_uuid 10) 86402000] /\
  conversations (snd (post_session (mkEnv None None) w_demo)) = conversations w_demo /\
  messages (snd (post_session (mkEnv None None) w_demo)) = messages w_demo /\
  model_calls (snd (post_session (mkEnv None None) w_demo)) = model_calls w_demo.
Proof.
  assert (H : post_session (mkEnv None None) w_demo =
    (Some (RSession (random_uuid 10) 86402000),
     snd (post_session (mkEnv None None) w_demo))) by reflexivity.
  split; [exact H|].
  exact (post_session_creates (mkEnv None None) w_demo _ _ _ H).
Defined.

Lemma session_round_trip_witness :
  getSessionExpiryHours (mkEnv (Some (js "2")) None) = Some (NFin 2) /\
  Z.abs (clock w_demo + 2 * 3600000) <= 8640000000000000 /\
  (forall s, In s (sessions w_demo) -> s_sessionId s <> random_uuid (next_oid w_demo)) /\
  exists w1,
    post_session (mkEnv (Some (js "2")) None) w_demo =
      (Some (RSession (random_uuid (next_oid w_demo)) (clock w_demo + 2 * 3600000)), w1) /\
    get_session (random_uuid (next_oid w_demo)) (set_clock w1 7202000) =
      (Some (if 7202000 <=? clock w_demo + 2 * 3600000
             then SCValid (random_uuid (next_oid w_demo)) (clock w_demo + 2 * 3600000)
             else SCInvalid MsgExpired),
       set_clock w1 7202000).
Proof.
  assert (Hh : getSessionExpiryHours (mkEnv (Some (js "2")) None) = Some (NFin 2))
    by (vm_compute; reflexivity).
  assert (Hr : Z.abs (clock w_demo + 2 * 3600000) <= 8640000000000000)
    by (vm_compute; discriminate).
  assert (Hf : forall s, In s (sessions w_demo) -> s_sessionId s <> random_uuid (next_oid w_demo)).
  { intros s Hs. cbn [sessions w_demo In] in Hs.
    repeat destruct Hs as [<-|Hs]; try contradiction; vm_compute; discriminate. }
  split; [exact Hh|]. split; [exact Hr|]. split; [exact Hf|].
  exact (session_round_trip _ w_demo 2 7202000 Hh Hr Hf).
Defined.

Lemma w_demo_tokens_nodup : NoDup (map s_sessionId (sessions w_demo)).
Proof.
  cbn. constructor; [|constructor; [intros []|constructor]].
  intros [H|[]]. vm_compute in H. discriminate.
Defined.

Lemma get_session_spec_witness :
  NoDup (map s_sessionId (sessions w_demo)) /\
  In session_b (sessions w_demo) /\
  fst (get_session tok_b w_demo) =
    Some (if clock w_demo <=? s_expiresAt session_b then SCValid tok_b (s_expiresAt session_b)
          else SCInvalid MsgExpired).
Proof.
  split; [exact w_demo_tokens_nodup|]. split; [right; left; reflexivity|].
  apply (proj2 (proj2 (get_session_spec tok_b w_demo w_demo_tokens_nodup)) session_b).
  - right; left; reflexivity.
  - reflexivity.
Defined.

Lemma getSessionExpiryHours_digits_witness :
  getSessionExpiryHours (mkEnv (Some ([32] ++ map (Z.add 48) [1; 2] ++ js "h")) None)
    = (if digits_value [1; 2] =? 0 then None else Some (NFin (digits_value [1; 2]))) /\
  digits_value [1; 2] = 12.
Proof.
  split; [|reflexivity].
  apply getSessionExpiryHours_digits.
  - intros u [<-|[]]; reflexivity.
  - discriminate.
  - intros d [<-|[<-|[]]]; lia.
  - intros u r H; injection H as <- _. vm_compute. right; reflexivity.
  - vm_compute; reflexivity.
Defined.

Lemma w_cleanup_tokens_nodup : NoDup (map s_sessionId (sessions w_cleanup)).
Proof.
  cbn. constructor; [|constructor; [intros []|constructor]].
  intros [H|[]]. vm_compute in H. discriminate.
Defined.

Lemma cleanup_keeps_exactly_valid_witness :
  In session_b (sessions w_cleanup) /\
  (In session_b (sessions (snd (cleanupExpiredSessions Bulk w_cleanup))) <->
   fst (validateSession (s_sessionId session_b) w_cleanup) = Some (Valid session_b)).
Proof.
  split; [right; left; reflexivity|].
  apply (cleanup_keeps_exactly_valid Bulk w_cleanup session_b
           w_cleanup_nodup w_cleanup_tokens_nodup).
  right; left; reflexivity.
Defined.

Lemma cleanup_expired_later_witness :
  NoDup (map s_id (sessions w_cleanup)) /\
  fst (validateSession tok_b (set_clock (snd (cleanupExpiredSessions Transactional w_cleanup)) 6000))
    = Some InvalidExpired /\
  exists s, In s (sessions w_cleanup) /\ s_sessionId s = tok_b /\
            clock w_cleanup <= s_expiresAt s < 6000.
Proof.
  assert (H : fst (validateSession tok_b
                (set_clock (snd (cleanupExpiredSessions Transactional w_cleanup)) 6000))
              = Some InvalidExpired) by (vm_compute; reflexivity).
  split; [exact w_cleanup_nodup|]. split; [exact H|].
  exact (cleanup_expired_later Transactional w_cleanup tok_b 6000 w_cleanup_nodup H).
Defined.

Lemma get_conversations_errors_witness :
  isValidUUID tok_a = true /\
  lookup_session (sessions w_demo) tok_a = Some (mkSession (object_id 0) tok_a 1000) /\
  1000 < clock w_demo /\
  fst (get_conversations c_createdAt (Some tok_a) w_demo) = Some (CVError 401 SESSION_INVALID).
Proof.
  assert (Hu : isValidUUID tok_a = true) by (vm_compute; reflexivity).
  assert (Hl : lookup_session (sessions w_demo) tok_a = Some (mkSession (object_id 0) tok_a 1000))
    by (vm_compute; reflexivity).
  split; [exact Hu|]. split; [exact Hl|]. split; [vm_compute; reflexivity|].
  apply (proj2 (proj2 (proj2 (get_conversations_errors c_createdAt (Some tok_a) w_demo)))
           tok_a eq_refl Hu).
  intros s Hs. rewrite Hl in Hs. injection Hs as <-. vm_compute. reflexivity.
Defined.

Lemma get_conversations_lists_own_witness :
  isValidUUID tok_b = true /\
  lookup_session (sessions w_demo) tok_b = Some session_b /\
  clock w_demo <= s_expiresAt session_b /\
  exists vs,
    get_conversations c_createdAt (Some tok_b) w_demo = (Some (CVList vs), w_demo) /\
    Permutation (map v_id vs)
      (map c_id (filter (owned_by (s_id session_b)) (conversations w_demo))).
Proof.
  assert (Hu : isValidUUID tok_b = true) by (vm_compute; reflexivity).
  assert (Hl : lookup_session (sessions w_demo) tok_b = Some session_b)
    by (vm_compute; reflexivity).
  assert (He : clock w_demo <= s_expiresAt session_b) by (vm_compute; discriminate).
  split; [exact Hu|]. split; [exact Hl|]. split; [exact He|].
  destruct (get_conversations_lists_own c_createdAt tok_b w_demo session_b Hu Hl He)
    as (vs & H1 & H2 & _).
  exists vs. split; assumption.
Defined.

